(** * device-info-collector: the admission gate and the fingerprint hash

    A shallow embedding of the parts of [main.go] that carry the algorithmic
    content of the service:

    - [RateLimiter.Allow], the per-client sliding-window limiter;
    - [getClientIP], the resolution of the client key of a request;
    - [collectHandler], the submission handler, as far as the returned
      record is concerned;
    - [hashString], the checksum that the served page runs in the browser.

    Go's [time.Time] values are taken on the monotonic clock and measured in
    nanoseconds, Go strings are byte strings, JavaScript strings are
    sequences of UTF-16 code units, and JavaScript numbers that hold
    integers are integers of [Z]. *)

From Stdlib Require Import ZArith Lia List String Ascii Bool.
From stdpp Require Import gmap strings list sorting.

Local Open Scope Z_scope.

(** ** Time: the part of Go's [time] package that [Allow] uses *)

Module GoTime.

(** A [time.Time] obtained from [time.Now()]: its monotonic clock reading,
    in nanoseconds. *)
Definition Time := Z.

(** A [time.Duration] is an [int64] count of nanoseconds. *)
Definition Duration := Z.

Definition minDuration : Duration := - 2 ^ 63.
Definition maxDuration : Duration := 2 ^ 63 - 1.

Definition Nanosecond : Duration := 1.
Definition Microsecond : Duration := 1000 * Nanosecond.
Definition Millisecond : Duration := 1000 * Microsecond.
Definition Second : Duration := 1000 * Millisecond.
Definition Minute : Duration := 60 * Second.

(** [t.Sub(u)]: the difference [t - u], saturated at the largest and the
    smallest [Duration]. *)
Definition Sub (t u : Time) : Duration :=
  let d := t - u in
  if maxDuration <? d then maxDuration
  else if d <? minDuration then minDuration
  else d.

End GoTime.

(** ** The rate limiter *)

Module RateLimiter.
Import GoTime.

(** [type RateLimiter struct { requests map[string][]time.Time; mutex }].
    The mutex is held for the whole body of [Allow], so that a call is one
    atomic transition of the map. *)
Record RateLimiter := mkRateLimiter {
  requests : gmap string (list Time)
}.

(** [var rateLimiter = &RateLimiter{requests: make(map[string][]time.Time)}] *)
Definition rateLimiter : RateLimiter := {| requests := ∅ |}.

(** The loop of [Allow]: [validRequests] collects, in order, the entries
    [req] with [now.Sub(req) < time.Minute]. *)
Fixpoint prune (now : Time) (reqs validRequests : list Time) : list Time :=
  match reqs with
  | [] => validRequests
  | req :: rest =>
      if Sub now req <? Minute
      then prune now rest (validRequests ++ [req])
      else prune now rest validRequests
  end.

(** [rl.requests[ip]]: the stored slice, nil when the key is absent. *)
Definition stored (rl : RateLimiter) (ip : string) : list Time :=
  match requests rl !! ip with
  | Some l => l
  | None => []
  end.

(** [func (rl *RateLimiter) Allow(ip string) bool], with the reading of the
    clock, [now], as an argument; the result is the returned boolean and
    the limiter after the call. *)
Definition Allow (now : Time) (ip : string) (rl : RateLimiter)
  : bool * RateLimiter :=
  let reqs := stored rl ip in
  let validRequests := prune now reqs [] in
  if (30 <=? length validRequests)%nat then (false, rl)
  else
    let validRequests := validRequests ++ [now] in
    (true, {| requests := <[ip := validRequests]> (requests rl) |}).

(** The limiters that the program can be in: the initial one, and any one
    obtained from it by calls of [Allow]. *)
Inductive reachable : RateLimiter -> Prop :=
| reachable_init : reachable rateLimiter
| reachable_Allow now ip rl :
    reachable rl -> reachable (snd (Allow now ip rl)).

(** A call of [Allow]: the clock reading and the key. *)
Definition Call : Type := Time * string.

(** A sequence of calls, from the first to the last: the results, and the
    limiter at the end. *)
Fixpoint run (rl : RateLimiter) (calls : list Call) : list bool * RateLimiter :=
  match calls with
  | [] => ([], rl)
  | (now, ip) :: rest =>
      let '(ok, rl') := Allow now ip rl in
      let '(oks, rl'') := run rl' rest in
      (ok :: oks, rl'')
  end.

(** The clock readings at which the calls for [ip] were admitted. *)
Fixpoint admissions (ip : string) (rl : RateLimiter) (calls : list Call)
  : list Time :=
  match calls with
  | [] => []
  | (now, ip') :: rest =>
      let '(ok, rl') := Allow now ip' rl in
      if ok && bool_decide (ip' = ip)
      then now :: admissions ip rl' rest
      else admissions ip rl' rest
  end.

(** The clock never runs backwards from one call to the next. *)
Fixpoint chronological (calls : list Call) : Prop :=
  match calls with
  | [] => True
  | (now, _) :: rest =>
      Forall (fun c => now <= fst c) rest /\ chronological rest
  end.

(** A timestamp [t] lies in the window of length one minute that ends at
    [now]. *)
Definition in_window (now t : Time) : Prop := now - t < Minute.

#[global] Instance in_window_dec now t : Decision (in_window now t).
Proof. unfold in_window. apply _. Defined.

(** Thirty calls for one key at the same instant. *)
Definition burst (now : Time) (key : string) : list Call :=
  repeat (now, key) 30.

(** Thirty calls for one key, one second apart, from the instant [0] on. *)
Definition spaced : list Call :=
  map (fun i => (Z.of_nat i * Second, "203.0.113.5"%string)) (seq 0 30).

(** The entries of the stored sequence of [ip] that lie in the window
    that ends at [now], in their order. *)
Definition pruned (now : Time) (ip : string) (rl : RateLimiter) : list Time :=
  filter (in_window now) (stored rl ip).

(** The results of the calls for [key] in a sequence of calls for any
    keys, in order. *)
Fixpoint results_for (key : string) (rl : RateLimiter) (calls : list Call)
  : list bool :=
  match calls with
  | [] => []
  | (now, ip) :: rest =>
      let '(ok, rl') := Allow now ip rl in
      if bool_decide (ip = key)
      then ok :: results_for key rl' rest
      else results_for key rl' rest
  end.

(** The calls of a sequence that are for [key]. *)
Definition calls_for (key : string) (calls : list Call) : list Call :=
  filter (fun c => snd c = key) calls.

End RateLimiter.

(** ** JavaScript: the operators and methods that [hashString] uses *)

Module JS.

(** A string is a sequence of UTF-16 code units; [str.charCodeAt(i)] is
    its [i]-th element. *)
Definition JSString := list Z.

Definition code_unit (c : Z) : Prop := 0 <= c < 65536.

(** [ToInt32]: the value modulo [2^32], read as a signed 32-bit integer. *)
Definition ToInt32 (x : Z) : Z :=
  let m := x mod 2 ^ 32 in
  if 2 ^ 31 <=? m then m - 2 ^ 32 else m.

(** [ToUint32]: the value modulo [2^32]. *)
Definition ToUint32 (x : Z) : Z := x mod 2 ^ 32.

(** [x << y]: the left operand as a signed 32-bit integer, shifted by the
    right operand modulo 32, the result again a signed 32-bit integer. *)
Definition shl (x y : Z) : Z :=
  ToInt32 (Z.shiftl (ToInt32 x) (ToUint32 y mod 32)).

(** [x & y]: the bitwise and of the operands as signed 32-bit integers. *)
Definition band (x y : Z) : Z :=
  ToInt32 (Z.land (ToInt32 x) (ToInt32 y)).

(** [Math.abs(x)], on a number that holds an integer. *)
Definition Math_abs (x : Z) : Z := Z.abs x.

(** The digit of value [d] in [Number.prototype.toString]:
    [0]..[9], then [a]..[z]. *)
Definition digit_char (d : Z) : ascii :=
  if d <? 10 then ascii_of_nat (Z.to_nat (48 + d))
  else ascii_of_nat (Z.to_nat (87 + d)).

(** The digits of [n >= 0] in base [radix], the least significant first.
    The fuel bounds the number of digits. *)
Fixpoint digits_rev (fuel : nat) (radix n : Z) : list ascii :=
  match fuel with
  | O => []
  | S fuel' =>
      if n <? radix then [digit_char n]
      else digit_char (n mod radix) :: digits_rev fuel' radix (n / radix)
  end.

(** Fuel enough for any base from two on: one more than the number of
    bits of [n]. *)
Definition digits_fuel (n : Z) : nat := S (S (Z.to_nat (Z.log2 n))).

Definition digits (radix n : Z) : string :=
  string_of_list_ascii (rev (digits_rev (digits_fuel n) radix n)).

(** [n.toString(radix)], on a number that holds an integer. *)
Definition Number_toString (radix n : Z) : string :=
  if n <? 0 then String "-" (digits radix (- n)) else digits radix n.

(** The loop of [hashString], over the code units that remain. *)
Fixpoint hash_loop (str : JSString) (hash : Z) : Z :=
  match str with
  | [] => hash
  | char :: rest =>
      let hash := (shl hash 5 - hash) + char in
      let hash := band hash hash in
      hash_loop rest hash
  end.

(** The value of [hash] at the [return] of [hashString]. *)
Definition hash_of (str : JSString) : Z := hash_loop str 0.

(** [function hashString(str)] *)
Definition hashString (str : JSString) : string :=
  let hash := 0 in
  if (length str =? 0)%nat then Number_toString 10 hash
  else
    let hash := hash_loop str hash in
    Number_toString 16 (Math_abs hash).

End JS.

(** ** Go strings: the part of [strings] and of byte indexing that the
  program and [net.SplitHostPort] use *)

Module GoStrings.
Local Open Scope string_scope.
Local Open Scope Z_scope.

(** [strings.Split(s, sep)] for a separator of one byte, as in the call
    [strings.Split(ip, ",")]: the pieces of [s] between the separators. *)
Fixpoint Split (s : string) (sep : ascii) : list string :=
  match s with
  | "" => [""]
  | String b s' =>
      if Ascii.eqb b sep then "" :: Split s' sep
      else
        match Split s' sep with
        | [] => [String b ""]
        | piece :: pieces => String b piece :: pieces
        end
  end.

(** [l[0]] on a slice of strings; the empty string stands for the panic of
    an index out of range, which [Split] never causes. *)
Definition index0 (l : list string) : string :=
  match l with
  | [] => ""
  | x :: _ => x
  end.

(** [len(s)] *)
Definition len (s : string) : Z := Z.of_nat (String.length s).

(** The index of the first byte [c] of [s], or [-1]. *)
Fixpoint IndexByteString (s : string) (c : ascii) : Z :=
  match s with
  | "" => -1
  | String b s' =>
      if Ascii.eqb b c then 0
      else
        let i := IndexByteString s' c in
        if i <? 0 then -1 else i + 1
  end.

(** The index of the last byte [c] of [s], or [-1]. *)
Fixpoint LastIndexByteString (s : string) (c : ascii) : Z :=
  match s with
  | "" => -1
  | String b s' =>
      let i := LastIndexByteString s' c in
      if 0 <=? i then i + 1
      else if Ascii.eqb b c then 0 else -1
  end.

(** [s[i]] *)
Definition byte_at (s : string) (i : Z) : option ascii :=
  String.get (Z.to_nat i) s.

(** [s[i:j]] *)
Definition slice (s : string) (i j : Z) : string :=
  substring (Z.to_nat i) (Z.to_nat (j - i)) s.

(** [s[i:]] *)
Definition slice_from (s : string) (i : Z) : string :=
  slice s i (len s).

End GoStrings.

(** ** [net.SplitHostPort] *)

Module Net.
Import GoStrings.
Local Open Scope string_scope.
Local Open Scope Z_scope.

(** The checks that end [SplitHostPort]: no ['['] from index [j] on, no
    [']'] from index [k] on; then the port is what follows the colon at
    index [i]. *)
Definition finish (hostport host : string) (i j k : Z)
  : option (string * string) :=
  if 0 <=? IndexByteString (slice_from hostport j) "[" then None
  else if 0 <=? IndexByteString (slice_from hostport k) "]" then None
  else Some (host, slice_from hostport (i + 1)).

(** [net.SplitHostPort(hostport)]: the host and the port, or [None] when
    the function returns an error. *)
Definition SplitHostPort (hostport : string) : option (string * string) :=
  let i := LastIndexByteString hostport ":" in
  if i <? 0 then None
  else
    match byte_at hostport 0 with
    | Some "["%char =>
        let end_ := IndexByteString hostport "]" in
        if end_ <? 0 then None
        else if end_ + 1 =? len hostport then None
        else if end_ + 1 =? i then
          finish hostport (slice hostport 1 end_) i 1 (end_ + 1)
        else None
    | _ =>
        let host := slice hostport 0 i in
        if 0 <=? IndexByteString host ":" then None
        else finish hostport host i 0 0
    end.

End Net.

(** ** Wall-clock time and the layout of the timestamp *)

Module WallClock.
Local Open Scope string_scope.
Local Open Scope Z_scope.

(** The date and the clock of a [time.Time] in the local time zone:
    what [t.Date()] and [t.Clock()] return. *)
Record WallClock := mkWallClock {
  wYear : Z; wMonth : Z; wDay : Z;
  wHour : Z; wMin : Z; wSec : Z
}.

(** The decimal digits of [n >= 0], the least significant first. *)
Fixpoint decimal_rev (fuel : nat) (n : Z) : list ascii :=
  match fuel with
  | O => []
  | S fuel' =>
      let d := ascii_of_nat (Z.to_nat (48 + n mod 10)) in
      if n <? 10 then [d] else d :: decimal_rev fuel' (n / 10)
  end.

Definition decimal (n : Z) : list ascii :=
  rev (decimal_rev (S (S (Z.to_nat (Z.log2 n)))) n).

(** [appendInt(b, x, width)] of package [time]: a minus sign for a
    negative [x], then the decimal digits of its magnitude, padded with
    zeros on the left up to [width] digits. *)
Definition appendInt (x : Z) (width : Z) : string :=
  let u := Z.abs x in
  let ds := decimal u in
  let pad := repeat "0"%char (Z.to_nat (width - Z.of_nat (length ds))) in
  (if x <? 0 then "-" else "") ++ string_of_list_ascii (pad ++ ds)%list.

(** [t.Format("2006-01-02 15:04:05")] *)
Definition Format (t : WallClock) : string :=
  appendInt (wYear t) 4 ++ "-" ++ appendInt (wMonth t) 2 ++ "-"
    ++ appendInt (wDay t) 2 ++ " " ++ appendInt (wHour t) 2 ++ ":"
    ++ appendInt (wMin t) 2 ++ ":" ++ appendInt (wSec t) 2.

(** The clock of a real instant: a year of four digits, and the month,
    the day and the time of day in their ranges. *)
Definition civil (t : WallClock) : Prop :=
  0 <= wYear t <= 9999 /\ 1 <= wMonth t <= 12 /\ 1 <= wDay t <= 31 /\
  0 <= wHour t <= 23 /\ 0 <= wMin t <= 59 /\ 0 <= wSec t <= 59.

Definition is_digit (c : ascii) : bool :=
  ((48 <=? nat_of_ascii c) && (nat_of_ascii c <=? 57))%nat.

(** The pattern [YYYY-MM-DD HH:MM:SS]. *)
Definition is_timestamp (s : string) : bool :=
  match list_ascii_of_string s with
  | [y1; y2; y3; y4; s1; m1; m2; s2; d1; d2; s3; h1; h2; s4; n1; n2; s5; c1; c2] =>
      forallb is_digit [y1; y2; y3; y4; m1; m2; d1; d2; h1; h2; n1; n2; c1; c2]
      && Ascii.eqb s1 "-" && Ascii.eqb s2 "-" && Ascii.eqb s3 " "
      && Ascii.eqb s4 ":" && Ascii.eqb s5 ":"
  | _ => false
  end.

(** A string of exactly two, of exactly four decimal digits. *)
Definition two_digits (s : string) : bool :=
  match s with
  | String a (String b "") => is_digit a && is_digit b
  | _ => false
  end.

Definition four_digits (s : string) : bool :=
  match s with
  | String a (String b (String c (String d ""))) =>
      is_digit a && is_digit b && is_digit c && is_digit d
  | _ => false
  end.


(** The value of a decimal digit. *)
Definition digit_val (c : ascii) : Z := Z.of_nat (nat_of_ascii c) - 48.

(** The string is the number [x] in exactly two, in exactly four decimal
    digits. *)
Definition two_digits_of (x : Z) (s : string) : bool :=
  match s with
  | String a (String b "") =>
      is_digit a && is_digit b && (digit_val a * 10 + digit_val b =? x)
  | _ => false
  end.

Definition four_digits_of (x : Z) (s : string) : bool :=
  match s with
  | String a (String b (String c (String d ""))) =>
      is_digit a && is_digit b && is_digit c && is_digit d
      && (((digit_val a * 10 + digit_val b) * 10 + digit_val c) * 10
          + digit_val d =? x)
  | _ => false
  end.

(** The date and the clock that a string of the pattern
    [YYYY-MM-DD HH:MM:SS] reads as. *)
Definition read_timestamp (s : string) : option WallClock :=
  match list_ascii_of_string s with
  | [y1; y2; y3; y4; _; m1; m2; _; d1; d2; _; h1; h2; _; n1; n2; _; c1; c2] =>
      Some {| wYear := ((digit_val y1 * 10 + digit_val y2) * 10
                        + digit_val y3) * 10 + digit_val y4;
              wMonth := digit_val m1 * 10 + digit_val m2;
              wDay := digit_val d1 * 10 + digit_val d2;
              wHour := digit_val h1 * 10 + digit_val h2;
              wMin := digit_val n1 * 10 + digit_val n2;
              wSec := digit_val c1 * 10 + digit_val c2 |}
  | _ => None
  end.


End WallClock.

(** ** UTF-8 and the strings that [encoding/json] writes *)

Module Utf8.
Local Open Scope string_scope.
Local Open Scope Z_scope.

(** The value of a byte. *)
Definition byte_val (b : ascii) : Z := Z.of_nat (nat_of_ascii b).

(** The byte lies between [lo] and [hi], both included. *)
Definition between (lo hi : Z) (b : ascii) : bool :=
  (lo <=? byte_val b) && (byte_val b <=? hi).

(** A continuation byte, [0x80] to [0xBF]. *)
Definition continuation (b : ascii) : bool := between 128 191 b.

(** The size of the rune that [utf8.DecodeRuneInString] decodes at the
    head of [s], or [None] where it returns [(RuneError, 1)]: the head is
    not a well-formed UTF-8 sequence. The range accepted for the second
    byte depends on the first, as in the table [first] of package
    [unicode/utf8]. *)
Definition rune_size (s : string) : option nat :=
  match s with
  | "" => None
  | String b0 rest =>
      if byte_val b0 <? 128 then Some 1%nat
      else if between 194 223 b0 then
        match rest with
        | String b1 _ => if continuation b1 then Some 2%nat else None
        | _ => None
        end
      else if between 224 239 b0 then
        match rest with
        | String b1 (String b2 _) =>
            let second :=
              if byte_val b0 =? 224 then between 160 191 b1
              else if byte_val b0 =? 237 then between 128 159 b1
              else continuation b1 in
            if second && continuation b2 then Some 3%nat else None
        | _ => None
        end
      else if between 240 244 b0 then
        match rest with
        | String b1 (String b2 (String b3 _)) =>
            let second :=
              if byte_val b0 =? 240 then between 144 191 b1
              else if byte_val b0 =? 244 then between 128 143 b1
              else continuation b1 in
            if second && continuation b2 && continuation b3
            then Some 4%nat else None
        | _ => None
        end
      else None
  end.

(** The UTF-8 encoding of [U+FFFD], the replacement character. *)
Definition replacement : string :=
  String (ascii_of_nat 239) (String (ascii_of_nat 191)
    (String (ascii_of_nat 189) "")).

(** The string that the JSON text written for [s] denotes. The encoder
    of [encoding/json] copies every well-formed UTF-8 sequence, as it is
    or as an escape that denotes it, and writes [\ufffd] for every byte at
    which [DecodeRuneInString] returns [(RuneError, 1)], one byte at a
    time. [skip] counts the bytes that remain of the sequence under
    way. *)
Fixpoint written_from (s : string) (skip : nat) : string :=
  match s with
  | "" => ""
  | String b rest =>
      match skip with
      | S k => String b (written_from rest k)
      | O =>
          match rune_size s with
          | Some n => String b (written_from rest (Nat.pred n))
          | None => replacement ++ written_from rest 0
          end
      end
  end.

Definition written (s : string) : string := written_from s 0.

(** [utf8.ValidString(s)]: [s] is a sequence of well-formed UTF-8
    sequences. *)
Fixpoint valid_from (s : string) (skip : nat) : bool :=
  match s with
  | "" => true
  | String b rest =>
      match skip with
      | S k => valid_from rest k
      | O =>
          match rune_size s with
          | Some n => valid_from rest (Nat.pred n)
          | None => false
          end
      end
  end.

Definition ValidString (s : string) : bool := valid_from s 0.

(** All bytes are below [0x80]. *)
Fixpoint is_ascii (s : string) : bool :=
  match s with
  | "" => true
  | String b rest => (byte_val b <? 128) && is_ascii rest
  end.

End Utf8.

(** ** The program: [main.go] *)

Module Main.
Import GoTime GoStrings Net WallClock RateLimiter Utf8.
Local Open Scope string_scope.
Local Open Scope Z_scope.

(** [type DeviceInfo struct]: every field is a string. *)
Record DeviceInfo := mkDeviceInfo {
  Timestamp : string;
  UserAgent : string;
  IPAddress : string;
  Screen : string;
  ColorDepth : string;
  Timezone : string;
  Language : string;
  Platform : string;
  CPUCores : string;
  DeviceMemory : string;
  Connection : string;
  TouchSupport : string;
  PixelRatio : string;
  AvailableScreen : string;
  CookiesEnabled : string;
  JavaEnabled : string;
  DoNotTrack : string;
  HardwareConcurrency : string;
  Vendor : string;
  Product : string;
  Battery : string;
  OnlineStatus : string;
  MaxTouchPoints : string;
  PDFViewer : string;
  WebGL : string;
  Canvas : string;
  AudioContext : string;
  LocalStorage : string;
  SessionStorage : string;
  IndexedDB : string;
  Geolocation : string;
  LocationDetails : string;
  Notifications : string;
  ServiceWorker : string;
  WebRTC : string;
  MediaDevices : string;
  DeviceOrientation : string;
  Vibration : string;
  Bluetooth : string;
  USB : string;
  Clipboard : string;
  Share : string;
  PaymentRequest : string;
  Accelerometer : string;
  Gyroscope : string;
  Magnetometer : string;
  GamepadAPI : string;
  VRDisplay : string;
  WebAssembly : string;
  CSSFeatures : string;
  FontList : string;
  Plugins : string;
  MimeTypes : string;
  ViewportSize : string;
  DeviceType : string;
  OSVersion : string;
  BrowserVersion : string;
  ReferrerPolicy : string;
  HTTPSSupport : string;
  CanvasFingerprint : string;
  WebGLFingerprint : string;
  FontFingerprint : string
}.

(** The names of the fields of [DeviceInfo]. *)
Inductive Field : Set :=
  | F_Timestamp | F_UserAgent | F_IPAddress | F_Screen | F_ColorDepth
  | F_Timezone | F_Language | F_Platform | F_CPUCores | F_DeviceMemory
  | F_Connection | F_TouchSupport | F_PixelRatio | F_AvailableScreen
  | F_CookiesEnabled | F_JavaEnabled | F_DoNotTrack | F_HardwareConcurrency
  | F_Vendor | F_Product | F_Battery | F_OnlineStatus | F_MaxTouchPoints
  | F_PDFViewer | F_WebGL | F_Canvas | F_AudioContext | F_LocalStorage
  | F_SessionStorage | F_IndexedDB | F_Geolocation | F_LocationDetails
  | F_Notifications | F_ServiceWorker | F_WebRTC | F_MediaDevices
  | F_DeviceOrientation | F_Vibration | F_Bluetooth | F_USB | F_Clipboard
  | F_Share | F_PaymentRequest | F_Accelerometer | F_Gyroscope
  | F_Magnetometer | F_GamepadAPI | F_VRDisplay | F_WebAssembly
  | F_CSSFeatures | F_FontList | F_Plugins | F_MimeTypes | F_ViewportSize
  | F_DeviceType | F_OSVersion | F_BrowserVersion | F_ReferrerPolicy
  | F_HTTPSSupport | F_CanvasFingerprint | F_WebGLFingerprint
  | F_FontFingerprint.

(** [field f info] is the value of the field named [f] in [info]. *)
Definition field (f : Field) (info : DeviceInfo) : string :=
  match f with
  | F_Timestamp => Timestamp info
  | F_UserAgent => UserAgent info
  | F_IPAddress => IPAddress info
  | F_Screen => Screen info
  | F_ColorDepth => ColorDepth info
  | F_Timezone => Timezone info
  | F_Language => Language info
  | F_Platform => Platform info
  | F_CPUCores => CPUCores info
  | F_DeviceMemory => DeviceMemory info
  | F_Connection => Connection info
  | F_TouchSupport => TouchSupport info
  | F_PixelRatio => PixelRatio info
  | F_AvailableScreen => AvailableScreen info
  | F_CookiesEnabled => CookiesEnabled info
  | F_JavaEnabled => JavaEnabled info
  | F_DoNotTrack => DoNotTrack info
  | F_HardwareConcurrency => HardwareConcurrency info
  | F_Vendor => Vendor info
  | F_Product => Product info
  | F_Battery => Battery info
  | F_OnlineStatus => OnlineStatus info
  | F_MaxTouchPoints => MaxTouchPoints info
  | F_PDFViewer => PDFViewer info
  | F_WebGL => WebGL info
  | F_Canvas => Canvas info
  | F_AudioContext => AudioContext info
  | F_LocalStorage => LocalStorage info
  | F_SessionStorage => SessionStorage info
  | F_IndexedDB => IndexedDB info
  | F_Geolocation => Geolocation info
  | F_LocationDetails => LocationDetails info
  | F_Notifications => Notifications info
  | F_ServiceWorker => ServiceWorker info
  | F_WebRTC => WebRTC info
  | F_MediaDevices => MediaDevices info
  | F_DeviceOrientation => DeviceOrientation info
  | F_Vibration => Vibration info
  | F_Bluetooth => Bluetooth info
  | F_USB => USB info
  | F_Clipboard => Clipboard info
  | F_Share => Share info
  | F_PaymentRequest => PaymentRequest info
  | F_Accelerometer => Accelerometer info
  | F_Gyroscope => Gyroscope info
  | F_Magnetometer => Magnetometer info
  | F_GamepadAPI => GamepadAPI info
  | F_VRDisplay => VRDisplay info
  | F_WebAssembly => WebAssembly info
  | F_CSSFeatures => CSSFeatures info
  | F_FontList => FontList info
  | F_Plugins => Plugins info
  | F_MimeTypes => MimeTypes info
  | F_ViewportSize => ViewportSize info
  | F_DeviceType => DeviceType info
  | F_OSVersion => OSVersion info
  | F_BrowserVersion => BrowserVersion info
  | F_ReferrerPolicy => ReferrerPolicy info
  | F_HTTPSSupport => HTTPSSupport info
  | F_CanvasFingerprint => CanvasFingerprint info
  | F_WebGLFingerprint => WebGLFingerprint info
  | F_FontFingerprint => FontFingerprint info
  end.

(** The assignment [info.Timestamp = v]. *)
Definition set_Timestamp (v : string) (info : DeviceInfo) : DeviceInfo :=
  {|
    Timestamp := v;
    UserAgent := UserAgent info;
    IPAddress := IPAddress info;
    Screen := Screen info;
    ColorDepth := ColorDepth info;
    Timezone := Timezone info;
    Language := Language info;
    Platform := Platform info;
    CPUCores := CPUCores info;
    DeviceMemory := DeviceMemory info;
    Connection := Connection info;
    TouchSupport := TouchSupport info;
    PixelRatio := PixelRatio info;
    AvailableScreen := AvailableScreen info;
    CookiesEnabled := CookiesEnabled info;
    JavaEnabled := JavaEnabled info;
    DoNotTrack := DoNotTrack info;
    HardwareConcurrency := HardwareConcurrency info;
    Vendor := Vendor info;
    Product := Product info;
    Battery := Battery info;
    OnlineStatus := OnlineStatus info;
    MaxTouchPoints := MaxTouchPoints info;
    PDFViewer := PDFViewer info;
    WebGL := WebGL info;
    Canvas := Canvas info;
    AudioContext := AudioContext info;
    LocalStorage := LocalStorage info;
    SessionStorage := SessionStorage info;
    IndexedDB := IndexedDB info;
    Geolocation := Geolocation info;
    LocationDetails := LocationDetails info;
    Notifications := Notifications info;
    ServiceWorker := ServiceWorker info;
    WebRTC := WebRTC info;
    MediaDevices := MediaDevices info;
    DeviceOrientation := DeviceOrientation info;
    Vibration := Vibration info;
    Bluetooth := Bluetooth info;
    USB := USB info;
    Clipboard := Clipboard info;
    Share := Share info;
    PaymentRequest := PaymentRequest info;
    Accelerometer := Accelerometer info;
    Gyroscope := Gyroscope info;
    Magnetometer := Magnetometer info;
    GamepadAPI := GamepadAPI info;
    VRDisplay := VRDisplay info;
    WebAssembly := WebAssembly info;
    CSSFeatures := CSSFeatures info;
    FontList := FontList info;
    Plugins := Plugins info;
    MimeTypes := MimeTypes info;
    ViewportSize := ViewportSize info;
    DeviceType := DeviceType info;
    OSVersion := OSVersion info;
    BrowserVersion := BrowserVersion info;
    ReferrerPolicy := ReferrerPolicy info;
    HTTPSSupport := HTTPSSupport info;
    CanvasFingerprint := CanvasFingerprint info;
    WebGLFingerprint := WebGLFingerprint info;
    FontFingerprint := FontFingerprint info
  |}.

(** The assignment [info.IPAddress = v]. *)
Definition set_IPAddress (v : string) (info : DeviceInfo) : DeviceInfo :=
  {|
    Timestamp := Timestamp info;
    UserAgent := UserAgent info;
    IPAddress := v;
    Screen := Screen info;
    ColorDepth := ColorDepth info;
    Timezone := Timezone info;
    Language := Language info;
    Platform := Platform info;
    CPUCores := CPUCores info;
    DeviceMemory := DeviceMemory info;
    Connection := Connection info;
    TouchSupport := TouchSupport info;
    PixelRatio := PixelRatio info;
    AvailableScreen := AvailableScreen info;
    CookiesEnabled := CookiesEnabled info;
    JavaEnabled := JavaEnabled info;
    DoNotTrack := DoNotTrack info;
    HardwareConcurrency := HardwareConcurrency info;
    Vendor := Vendor info;
    Product := Product info;
    Battery := Battery info;
    OnlineStatus := OnlineStatus info;
    MaxTouchPoints := MaxTouchPoints info;
    PDFViewer := PDFViewer info;
    WebGL := WebGL info;
    Canvas := Canvas info;
    AudioContext := AudioContext info;
    LocalStorage := LocalStorage info;
    SessionStorage := SessionStorage info;
    IndexedDB := IndexedDB info;
    Geolocation := Geolocation info;
    LocationDetails := LocationDetails info;
    Notifications := Notifications info;
    ServiceWorker := ServiceWorker info;
    WebRTC := WebRTC info;
    MediaDevices := MediaDevices info;
    DeviceOrientation := DeviceOrientation info;
    Vibration := Vibration info;
    Bluetooth := Bluetooth info;
    USB := USB info;
    Clipboard := Clipboard info;
    Share := Share info;
    PaymentRequest := PaymentRequest info;
    Accelerometer := Accelerometer info;
    Gyroscope := Gyroscope info;
    Magnetometer := Magnetometer info;
    GamepadAPI := GamepadAPI info;
    VRDisplay := VRDisplay info;
    WebAssembly := WebAssembly info;
    CSSFeatures := CSSFeatures info;
    FontList := FontList info;
    Plugins := Plugins info;
    MimeTypes := MimeTypes info;
    ViewportSize := ViewportSize info;
    DeviceType := DeviceType info;
    OSVersion := OSVersion info;
    BrowserVersion := BrowserVersion info;
    ReferrerPolicy := ReferrerPolicy info;
    HTTPSSupport := HTTPSSupport info;
    CanvasFingerprint := CanvasFingerprint info;
    WebGLFingerprint := WebGLFingerprint info;
    FontFingerprint := FontFingerprint info
  |}.

(** The record of the end-to-end scenario: a user agent ["test-agent"], and
    a timestamp and an address that the client supplied itself. *)
Definition submitted : DeviceInfo :=
  mkDeviceInfo
    "2001-02-03 04:05:06" "test-agent" "10.9.8.7" "" "" "" "" "" "" "" ""
    "" "" "" "" "" "" "" "" "" "" "" "" "" "" "" "" "" "" "" "" "" "" ""
    "" "" "" "" "" "" "" "" "" "" "" "" "" "" "" "" "" "" "" "" "" "" ""
    "" "" "" "" "".

(** [type Response struct]; [Data] is absent when the source leaves it
    nil. *)
Record Response := mkResponse {
  Status : string;
  Message : string;
  Data : option DeviceInfo
}.

(** The part of [*http.Request] that the program reads. [Header] maps the
    name of a header field, as the source spells it, to the values of the
    field; [Body] is the request body. *)
Record Request := mkRequest {
  Method : string;
  Header : gmap string (list string);
  RemoteAddr : string;
  Body : string
}.

(** [h.Get(key)]: the first value of the field, or the empty string. *)
Definition Header_Get (h : gmap string (list string)) (key : string) : string :=
  match h !! key with
  | Some (v :: _) => v
  | _ => ""
  end.

(** [func getClientIP(r *http.Request) string] *)
Definition getClientIP (r : Request) : string :=
  let ip := Header_Get (Header r) "X-Forwarded-For" in
  if negb (String.eqb ip "") then index0 (Split ip ",")
  else
    let ip := Header_Get (Header r) "X-Real-IP" in
    if negb (String.eqb ip "") then ip
    else
      match SplitHostPort (RemoteAddr r) with
      | None => RemoteAddr r
      | Some (host, _) => host
      end.

(** [info] with [f] applied to the value of every field. *)
Definition map_fields (f : string -> string) (info : DeviceInfo) : DeviceInfo :=
  {|
    Timestamp := f (Timestamp info);
    UserAgent := f (UserAgent info);
    IPAddress := f (IPAddress info);
    Screen := f (Screen info);
    ColorDepth := f (ColorDepth info);
    Timezone := f (Timezone info);
    Language := f (Language info);
    Platform := f (Platform info);
    CPUCores := f (CPUCores info);
    DeviceMemory := f (DeviceMemory info);
    Connection := f (Connection info);
    TouchSupport := f (TouchSupport info);
    PixelRatio := f (PixelRatio info);
    AvailableScreen := f (AvailableScreen info);
    CookiesEnabled := f (CookiesEnabled info);
    JavaEnabled := f (JavaEnabled info);
    DoNotTrack := f (DoNotTrack info);
    HardwareConcurrency := f (HardwareConcurrency info);
    Vendor := f (Vendor info);
    Product := f (Product info);
    Battery := f (Battery info);
    OnlineStatus := f (OnlineStatus info);
    MaxTouchPoints := f (MaxTouchPoints info);
    PDFViewer := f (PDFViewer info);
    WebGL := f (WebGL info);
    Canvas := f (Canvas info);
    AudioContext := f (AudioContext info);
    LocalStorage := f (LocalStorage info);
    SessionStorage := f (SessionStorage info);
    IndexedDB := f (IndexedDB info);
    Geolocation := f (Geolocation info);
    LocationDetails := f (LocationDetails info);
    Notifications := f (Notifications info);
    ServiceWorker := f (ServiceWorker info);
    WebRTC := f (WebRTC info);
    MediaDevices := f (MediaDevices info);
    DeviceOrientation := f (DeviceOrientation info);
    Vibration := f (Vibration info);
    Bluetooth := f (Bluetooth info);
    USB := f (USB info);
    Clipboard := f (Clipboard info);
    Share := f (Share info);
    PaymentRequest := f (PaymentRequest info);
    Accelerometer := f (Accelerometer info);
    Gyroscope := f (Gyroscope info);
    Magnetometer := f (Magnetometer info);
    GamepadAPI := f (GamepadAPI info);
    VRDisplay := f (VRDisplay info);
    WebAssembly := f (WebAssembly info);
    CSSFeatures := f (CSSFeatures info);
    FontList := f (FontList info);
    Plugins := f (Plugins info);
    MimeTypes := f (MimeTypes info);
    ViewportSize := f (ViewportSize info);
    DeviceType := f (DeviceType info);
    OSVersion := f (OSVersion info);
    BrowserVersion := f (BrowserVersion info);
    ReferrerPolicy := f (ReferrerPolicy info);
    HTTPSSupport := f (HTTPSSupport info);
    CanvasFingerprint := f (CanvasFingerprint info);
    WebGLFingerprint := f (WebGLFingerprint info);
    FontFingerprint := f (FontFingerprint info)
  |}.

(** [json.NewEncoder(w).Encode(response)], as the value that the written
    JSON text denotes: the response with every string as the encoder writes
    it. *)
Definition Encode (response : Response) : Response :=
  {| Status := written (Status response);
     Message := written (Message response);
     Data := match Data response with
             | Some info => Some (map_fields written info)
             | None => None
             end |}.

(** What a handler wrote to its [http.ResponseWriter]: the status code,
    the header fields it set, the response that it handed to the JSON
    encoder, if any, and what the encoder sent for it. *)
Record Written := mkWritten {
  code : Z;
  headers : list (string * string);
  body : option Response;
  sent : option Response
}.

Definition StatusOK : Z := 200.
Definition StatusBadRequest : Z := 400.
Definition StatusMethodNotAllowed : Z := 405.
Definition StatusTooManyRequests : Z := 429.

(** [func sendJSONResponse(w, status, response)] *)
Definition sendJSONResponse (status : Z) (response : Response) : Written :=
  {| code := status;
     headers :=
       [("Content-Type", "application/json");
        ("Access-Control-Allow-Origin", "*");
        ("Access-Control-Allow-Methods", "POST, GET, OPTIONS");
        ("Access-Control-Allow-Headers", "Content-Type")];
     body := Some response;
     sent := Some (Encode response) |}.

Section Handler.

(** [json.NewDecoder(r.Body).Decode(&info)] on a zero [DeviceInfo]: the
    decoded record, or the text of the error. *)
Variable json_Decode : string -> DeviceInfo + string.

(** [func collectHandler(w, r)]. The arguments [now] and [wall] are the
    two readings of the clock, in [Allow] and for the timestamp; the
    limiter is the global [rateLimiter]. Console output is left out. *)
Definition collectHandler (now : Time) (wall : WallClock) (r : Request)
    (rl : RateLimiter) : Written * RateLimiter :=
  if String.eqb (Method r) "OPTIONS" then
    ({| code := StatusOK;
        headers :=
          [("Access-Control-Allow-Origin", "*");
           ("Access-Control-Allow-Methods", "POST, GET, OPTIONS");
           ("Access-Control-Allow-Headers", "Content-Type")];
        body := None;
      sent := None |}, rl)
  else if negb (String.eqb (Method r) "POST") then
    (sendJSONResponse StatusMethodNotAllowed
       {| Status := "error";
          Message := "Only POST method is allowed";
          Data := None |}, rl)
  else
    let ip := getClientIP r in
    let '(ok, rl) := Allow now ip rl in
    if negb ok then
      (sendJSONResponse StatusTooManyRequests
         {| Status := "error";
            Message := "请求过于频繁，请稍后再试";
            Data := None |}, rl)
    else
      match json_Decode (Body r) with
      | inr err =>
          (sendJSONResponse StatusBadRequest
             {| Status := "error";
                Message := "Invalid JSON format: " ++ err;
                Data := None |}, rl)
      | inl info =>
          let info := set_Timestamp (Format wall) info in
          let info := set_IPAddress ip info in
          (sendJSONResponse StatusOK
             {| Status := "success";
                Message := "设备信息收集成功";
                Data := Some info |}, rl)
      end.

(** The requests that reach [collectHandler], in the order in which their
    calls of [Allow] take the lock, each with its two readings of the
    clock: what the handler wrote for each, and the limiter at the end. *)
Fixpoint serve (rl : RateLimiter) (arrivals : list (Time * WallClock * Request))
  : list Written * RateLimiter :=
  match arrivals with
  | [] => ([], rl)
  | (now, wall, r) :: rest =>
      let '(answer, rl') := collectHandler now wall r rl in
      let '(answers, rl'') := serve rl' rest in
      (answer :: answers, rl'')
  end.


End Handler.

End Main.

(** ** The reduction as the specification words it *)

Module Reduce.
Local Open Scope string_scope.
Local Open Scope Z_scope.

(** Truncation to the signed range of 32 bits, in two's complement: the
    integer of [-2^31 .. 2^31 - 1] that differs from [x] by a multiple of
    [2^32]. *)
Definition wrap32 (x : Z) : Z := (x + 2 ^ 31) mod 2 ^ 32 - 2 ^ 31.

(** One step for a character code [c]: [acc = (acc << 5) - acc + c],
    then the truncation. *)
Definition step (acc c : Z) : Z := wrap32 (Z.shiftl acc 5 - acc + c).

(** The accumulator after the character codes of [s], in order, from
    [acc]. *)
Definition accumulate (acc : Z) (s : list Z) : Z := fold_left step s acc.

(** The value of a lowercase hexadecimal digit. *)
Definition hex_digit (c : ascii) : option Z :=
  let n := Z.of_nat (nat_of_ascii c) in
  if (48 <=? n) && (n <=? 57) then Some (n - 48)
  else if (97 <=? n) && (n <=? 102) then Some (n - 87)
  else None.

Fixpoint hex_value_from (acc : Z) (s : string) : option Z :=
  match s with
  | "" => Some acc
  | String c s' =>
      match hex_digit c with
      | Some d => hex_value_from (acc * 16 + d) s'
      | None => None
      end
  end.

(** The number that a string denotes in lowercase hexadecimal; [None] for
    the empty string and for a string with any other character, a sign
    or an uppercase digit among them. *)
Definition hex_value (s : string) : option Z :=
  match s with
  | "" => None
  | _ => hex_value_from 0 s
  end.

(** No leading zeros: the string is ["0"], or it does not start with the
    digit zero. *)
Definition no_leading_zero (s : string) : Prop :=
  s = "0" \/ exists c rest, s = String c rest /\ c <> "0"%char.

(** The absolute value in 32-bit two's-complement arithmetic. *)
Definition abs32 (x : Z) : Z := wrap32 (Z.abs x).

(** The code units of ["hello"] and of ["polygenelubricants"]. *)
Definition hello : list Z := [104; 101; 108; 108; 111].
Definition polygenelubricants : list Z :=
  [112; 111; 108; 121; 103; 101; 110; 101; 108; 117; 98; 114; 105; 99; 97;
   110; 116; 115].

(** A reimplementation of [hashString] that takes the absolute value in
    32-bit arithmetic. *)
Definition hashString_abs32 (str : list Z) : string :=
  if (length str =? 0)%nat then JS.Number_toString 10 0
  else JS.Number_toString 16 (abs32 (JS.hash_loop str 0)).


End Reduce.


(** ** The hash as a polynomial *)

Module HashMath.
Local Open Scope Z_scope.

(** The value at [31] of the polynomial whose coefficients are the
    character codes, the first code with the highest power. *)
Fixpoint poly (s : list Z) : Z :=
  match s with
  | [] => 0
  | c :: rest => c * 31 ^ Z.of_nat (length rest) + poly rest
  end.

End HashMath.


(** * Properties *)

(** ** Durations *)

Section DurationFacts.
Import GoTime.

Lemma Minute_ns : Minute = 60000000000.
Proof. reflexivity. Qed.

(** Saturation never changes the outcome of a comparison with a minute. *)
Lemma Sub_lt_Minute (t u : Time) : Sub t u < Minute <-> t - u < Minute.
Proof.
  unfold Sub. rewrite Minute_ns.
  assert (Hmax : maxDuration = 9223372036854775807) by reflexivity.
  assert (Hmin : minDuration = -9223372036854775808) by reflexivity.
  destruct (Z.ltb_spec maxDuration (t - u)) as [H1 | H1];
    [ lia | destruct (Z.ltb_spec (t - u) minDuration) as [H2 | H2]; lia ].
Qed.

End DurationFacts.

(** ** The rate limiter *)

Section RateLimiterFacts.
Import GoTime RateLimiter.

Implicit Types (rl : RateLimiter) (now t T : Time) (ip key : string).
Implicit Types (calls : list Call) (l : list Time).

(** *** The loop is a filter *)

Lemma prune_filter now l acc :
  prune now l acc = acc ++ filter (in_window now) l.
Proof.
  revert acc. induction l as [| req rest IH]; intros acc; simpl.
  - by rewrite app_nil_r.
  - destruct (Z.ltb_spec (Sub now req) Minute) as [Hlt | Hge].
    + apply Sub_lt_Minute in Hlt.
      rewrite filter_cons_True by exact Hlt.
      rewrite IH, <- app_assoc. reflexivity.
    + rewrite filter_cons_False; [apply IH |].
      unfold in_window. intros Hlt. apply Sub_lt_Minute in Hlt. lia.
Qed.

Lemma Allow_eq now ip rl :
  Allow now ip rl =
    if (30 <=? length (pruned now ip rl))%nat then (false, rl)
    else (true, {| requests := <[ip := pruned now ip rl ++ [now]]> (requests rl) |}).
Proof. unfold Allow, pruned. by rewrite prune_filter. Qed.

Lemma Allow_denied now ip rl :
  (30 <= length (pruned now ip rl))%nat ->
  Allow now ip rl = (false, rl).
Proof.
  intros H. rewrite Allow_eq.
  destruct (Nat.leb_spec 30 (length (pruned now ip rl))); [done | lia].
Qed.

Lemma Allow_admitted now ip rl :
  (length (pruned now ip rl) < 30)%nat ->
  Allow now ip rl =
    (true, {| requests := <[ip := pruned now ip rl ++ [now]]> (requests rl) |}).
Proof.
  intros H. rewrite Allow_eq.
  destruct (Nat.leb_spec 30 (length (pruned now ip rl))); [lia | done].
Qed.

Lemma Allow_cases now ip rl :
  ((30 <= length (pruned now ip rl))%nat /\ Allow now ip rl = (false, rl)) \/
  ((length (pruned now ip rl) < 30)%nat /\
   Allow now ip rl =
     (true, {| requests := <[ip := pruned now ip rl ++ [now]]> (requests rl) |})).
Proof.
  destruct (Nat.le_gt_cases 30 (length (pruned now ip rl))) as [H | H].
  - left. split; [done | by apply Allow_denied].
  - right. split; [done | by apply Allow_admitted].
Qed.

Lemma stored_insert_eq ip l m :
  stored {| requests := <[ip := l]> m |} ip = l.
Proof. unfold stored; simpl. by rewrite lookup_insert_eq. Qed.

Lemma stored_insert_ne ip key l m :
  ip <> key ->
  stored {| requests := <[ip := l]> m |} key = stored {| requests := m |} key.
Proof. intros H. unfold stored; simpl. by rewrite lookup_insert_ne. Qed.

Lemma stored_eta rl key : stored {| requests := requests rl |} key = stored rl key.
Proof. by destruct rl. Qed.

(** Whatever the outcome, only the sequence of the key of the call can
    change. *)
Lemma Allow_stored_ne now ip key rl :
  ip <> key -> stored (snd (Allow now ip rl)) key = stored rl key.
Proof.
  intros Hne. destruct (Allow_cases now ip rl) as [[_ ->] | [_ ->]]; simpl.
  - reflexivity.
  - by rewrite stored_insert_ne, stored_eta.
Qed.

Lemma Allow_requests_ne now ip key rl :
  ip <> key ->
  requests (snd (Allow now ip rl)) !! key = requests rl !! key.
Proof.
  intros Hne. destruct (Allow_cases now ip rl) as [[_ ->] | [_ ->]]; simpl.
  - reflexivity.
  - by rewrite lookup_insert_ne.
Qed.

(** *** The bound on the stored sequences *)

Lemma pruned_length now ip rl :
  (length (pruned now ip rl) <= length (stored rl ip))%nat.
Proof. apply length_filter. Qed.

Lemma Allow_length now ip key rl :
  (length (stored rl key) <= 30)%nat ->
  (length (stored (snd (Allow now ip rl)) key) <= 30)%nat.
Proof.
  intros Hlen. destruct (decide (ip = key)) as [-> | Hne].
  - destruct (Allow_cases now key rl) as [[_ ->] | [Hlt ->]]; simpl.
    + exact Hlen.
    + rewrite stored_insert_eq, length_app. simpl. lia.
  - by rewrite Allow_stored_ne.
Qed.

Lemma reachable_length rl key :
  reachable rl -> (length (stored rl key) <= 30)%nat.
Proof.
  induction 1 as [| now ip rl _ IH].
  - unfold stored, rateLimiter; simpl. rewrite lookup_empty. simpl. lia.
  - by apply Allow_length.
Qed.

(** A filter that keeps the length keeps the list. *)
Lemma filter_full {A} (P : A -> Prop) `{!forall x, Decision (P x)} (l : list A) :
  (length l <= length (filter P l))%nat -> filter P l = l.
Proof.
  induction l as [| x l IH]; [done |].
  intros Hlen. destruct (decide (P x)) as [HP | HP].
  - rewrite filter_cons_True in * by done. simpl in Hlen.
    f_equal. apply IH. lia.
  - rewrite filter_cons_False in Hlen by done.
    pose proof (length_filter P l). simpl in Hlen. lia.
Qed.

(** In a reachable limiter a denial finds the stored sequence full and
    wholly inside the window. *)
Lemma denied_nothing_stale now ip rl :
  reachable rl ->
  (30 <= length (pruned now ip rl))%nat ->
  pruned now ip rl = stored rl ip.
Proof.
  intros Hr Hfull. apply filter_full.
  pose proof (reachable_length rl ip Hr). unfold pruned in Hfull. lia.
Qed.

(** *** Sequences of calls *)

Lemma run_app rl calls calls' :
  run rl (calls ++ calls') =
    (fst (run rl calls) ++ fst (run (snd (run rl calls)) calls'),
     snd (run (snd (run rl calls)) calls')).
Proof.
  revert rl. induction calls as [| [now ip] rest IH]; intros rl; simpl.
  - by destruct (run rl calls').
  - destruct (Allow now ip rl) as [ok rl1]. rewrite IH.
    destruct (run rl1 rest) as [oks rl2]; simpl. reflexivity.
Qed.

Lemma run_cons_snd rl now ip calls :
  snd (run rl ((now, ip) :: calls)) = snd (run (snd (Allow now ip rl)) calls).
Proof.
  simpl. destruct (Allow now ip rl) as [ok rl1]; simpl.
  by destruct (run rl1 calls).
Qed.

Lemma run_snoc_snd rl now ip calls :
  snd (run rl (calls ++ [(now, ip)])) = snd (Allow now ip (snd (run rl calls))).
Proof.
  rewrite run_app; simpl.
  by destruct (Allow now ip (snd (run rl calls))).
Qed.

Lemma run_reachable rl calls : reachable rl -> reachable (snd (run rl calls)).
Proof.
  revert rl. induction calls as [| [now ip] rest IH]; intros rl Hr.
  - exact Hr.
  - rewrite run_cons_snd. apply IH. by constructor.
Qed.

Lemma admissions_cons ip rl now key calls :
  admissions ip rl ((now, key) :: calls) =
    (if fst (Allow now key rl) && bool_decide (key = ip) then [now] else [])
      ++ admissions ip (snd (Allow now key rl)) calls.
Proof.
  simpl. destruct (Allow now key rl) as [ok rl1]; simpl.
  by destruct (ok && bool_decide (key = ip)).
Qed.

Lemma admissions_app ip rl calls calls' :
  admissions ip rl (calls ++ calls') =
    admissions ip rl calls ++ admissions ip (snd (run rl calls)) calls'.
Proof.
  revert rl. induction calls as [| [now key] rest IH]; intros rl.
  - reflexivity.
  - rewrite <- app_comm_cons, !admissions_cons, run_cons_snd, IH.
    by rewrite app_assoc.
Qed.

(** An admission carries the clock reading of its call. *)
Lemma admissions_times (P : Time -> Prop) ip rl calls :
  Forall (fun c => P (fst c)) calls -> Forall P (admissions ip rl calls).
Proof.
  revert rl. induction calls as [| [now key] rest IH]; intros rl Hall.
  - constructor.
  - rewrite admissions_cons. apply Forall_cons_1 in Hall as [Hnow Hrest].
    apply Forall_app. split; [| by apply IH].
    destruct (fst (Allow now key rl) && bool_decide (key = ip)); by repeat constructor.
Qed.

(** *** Windows *)

(** A later window keeps nothing that an earlier one dropped. *)
Lemma filter_window_later now T l :
  now <= T ->
  filter (in_window T) (filter (in_window now) l) = filter (in_window T) l.
Proof.
  intros Hle. induction l as [| t l IH]; [done |].
  destruct (decide (in_window now t)) as [Hin | Hout].
  - rewrite (filter_cons_True (in_window now)) by done.
    destruct (decide (in_window T t)).
    + rewrite !(filter_cons_True (in_window T)) by done. by rewrite IH.
    + by rewrite !(filter_cons_False (in_window T)).
  - rewrite (filter_cons_False (in_window now)) by done.
    rewrite (filter_cons_False (in_window T)); [done |].
    unfold in_window in *. lia.
Qed.

(** On every window that ends at or after the last call, the stored
    sequence of a key and the history of its admissions agree. *)
Lemma window_stored_admissions T ip calls rl :
  Forall (fun c => fst c <= T) calls ->
  filter (in_window T) (stored rl ip ++ admissions ip rl calls) =
  filter (in_window T) (stored (snd (run rl calls)) ip).
Proof.
  revert rl. induction calls as [| [now key] rest IH]; intros rl Hall.
  - simpl. by rewrite app_nil_r.
  - apply Forall_cons_1 in Hall as [Hnow Hrest]. simpl in Hnow.
    rewrite run_cons_snd, admissions_cons, <- (IH _ Hrest).
    destruct (decide (key = ip)) as [-> | Hne].
    + rewrite bool_decide_eq_true_2 by done. rewrite andb_true_r.
      destruct (Allow_cases now ip rl) as [[_ ->] | [_ ->]]; cbn [fst snd];
        [done |].
      rewrite stored_insert_eq, !filter_app. unfold pruned.
      rewrite filter_window_later by done. by rewrite <- !app_assoc.
    + rewrite bool_decide_eq_false_2 by done. rewrite andb_false_r. simpl.
      by rewrite Allow_stored_ne.
Qed.

(** A chronological sequence splits at any instant into the calls up to
    it and the calls after it. *)
Lemma chronological_split T calls :
  chronological calls ->
  exists before after,
    calls = before ++ after /\
    Forall (fun c => fst c <= T) before /\
    Forall (fun c => T < fst c) after.
Proof.
  induction calls as [| [now ip] rest IH]; intros Hchr.
  - exists [], []. by repeat split.
  - destruct Hchr as [Hnow Hrest].
    destruct (decide (now <= T)) as [Hle | Hgt].
    + destruct (IH Hrest) as (before & after & -> & Hb & Ha).
      exists ((now, ip) :: before), after. repeat split; [| done].
      by constructor.
    + exists [], ((now, ip) :: rest). repeat split; [constructor |].
      constructor; [simpl; lia |].
      eapply Forall_impl; [exact Hnow |]. simpl. intros c Hc. lia.
Qed.

Lemma stored_init ip : stored rateLimiter ip = [].
Proof. unfold stored, rateLimiter; simpl. by rewrite lookup_empty. Qed.

Lemma Forall_filter_keep {A} (P Q : A -> Prop) `{!forall x, Decision (Q x)}
    (l : list A) :
  Forall P l -> Forall P (filter Q l).
Proof.
  rewrite !Forall_forall. intros HP x Hx.
  apply list_elem_of_filter in Hx as [_ Hx]. by apply HP.
Qed.

(** Every stored timestamp is the clock reading of an earlier call. *)
Lemma stored_times (P : Time -> Prop) key calls rl :
  Forall P (stored rl key) ->
  Forall (fun c => P (fst c)) calls ->
  Forall P (stored (snd (run rl calls)) key).
Proof.
  revert rl. induction calls as [| [now ip] rest IH]; intros rl Hst Hall.
  - exact Hst.
  - apply Forall_cons_1 in Hall as [Hnow Hrest]. rewrite run_cons_snd.
    apply IH; [| done].
    destruct (decide (ip = key)) as [-> | Hne]; [| by rewrite Allow_stored_ne].
    destruct (Allow_cases now key rl) as [[_ ->] | [_ ->]]; simpl; [done |].
    rewrite stored_insert_eq. apply Forall_app. split.
    + unfold pruned. by apply Forall_filter_keep.
    + by repeat constructor.
Qed.

Lemma chronological_snoc calls now ip :
  chronological (calls ++ [(now, ip)]) ->
  Forall (fun c => fst c <= now) calls.
Proof.
  induction calls as [| [t key] rest IH]; [constructor |].
  simpl. intros [Hall Hchr]. constructor; [| by apply IH].
  apply Forall_app in Hall as [_ Hlast].
  by apply Forall_cons_1 in Hlast as [Hlast _].
Qed.

Lemma filter_none {A} (P : A -> Prop) `{!forall x, Decision (P x)} (l : list A) :
  Forall (fun x => ~ P x) l -> filter P l = [].
Proof.
  induction 1 as [| x l Hx _ IH]; [done |].
  by rewrite filter_cons_False.
Qed.

(** The result of a call depends on the stored sequence of its key
    only, and so does the sequence that the call leaves. *)
Lemma Allow_local now ip rl1 rl2 :
  stored rl1 ip = stored rl2 ip ->
  fst (Allow now ip rl1) = fst (Allow now ip rl2) /\
  stored (snd (Allow now ip rl1)) ip = stored (snd (Allow now ip rl2)) ip.
Proof.
  intros Heq.
  assert (Hp : pruned now ip rl1 = pruned now ip rl2)
    by (unfold pruned; by rewrite Heq).
  destruct (Allow_cases now ip rl1) as [[H1 ->] | [H1 ->]];
    destruct (Allow_cases now ip rl2) as [[H2 ->] | [H2 ->]];
    rewrite Hp in H1; try lia; cbn [fst snd].
  - done.
  - by rewrite !stored_insert_eq, Hp.
Qed.

(** *** The contract of [Allow] *)

(** C1. A call [Allow(key)] on a limiter that the program can be in
    (a) leaves as the stored sequence of the key the entries of the old
    sequence that are less than a minute old, in their order, followed by
    the current time if the call is admitted; (b) returns false and leaves
    the limiter as it was when thirty or more entries remain after
    pruning; (c) otherwise returns true, having appended the current
    time. *)
Theorem Allow_prunes_decides_records rl now key :
  reachable rl ->
  let kept := filter (fun t => now - t < Minute) (stored rl key) in
  let ok := fst (Allow now key rl) in
  let rl' := snd (Allow now key rl) in
  stored rl' key = kept ++ (if ok then [now] else []) /\
  ((30 <= length kept)%nat -> ok = false /\ rl' = rl) /\
  ((length kept < 30)%nat -> ok = true /\ stored rl' key = kept ++ [now]).
Proof.
  intros Hr. cbv zeta.
  change (filter (fun t => now - t < Minute) (stored rl key))
    with (pruned now key rl).
  destruct (Allow_cases now key rl) as [[Hfull ->] | [Hfree ->]]; cbn [fst snd].
  - rewrite app_nil_r. split; [| split].
    + symmetry. by apply denied_nothing_stale.
    + done.
    + lia.
  - rewrite stored_insert_eq. split; [done | split].
    + lia.
    + done.
Qed.

Lemma Allow_prunes_decides_records_witness :
  let rl := snd (Allow 0 "203.0.113.5" rateLimiter) in
  let now := 61000000000 in
  stored (snd (Allow now "203.0.113.5" rl)) "203.0.113.5" = [now].
Proof.
  pose proof (Allow_prunes_decides_records
                (snd (Allow 0 "203.0.113.5" rateLimiter)) 61000000000
                "203.0.113.5" (reachable_Allow _ _ _ reachable_init)) as H.
  cbv zeta in H. destruct H as [_ [_ H]].
  cbv zeta. apply H. vm_compute. lia.
Defined.

(** C5. A call of [Allow] that returns false leaves the limiter exactly as
    it found it: nothing is recorded. *)
Theorem Allow_denied_no_effect rl now key :
  fst (Allow now key rl) = false -> snd (Allow now key rl) = rl.
Proof.
  intros Hdenied.
  destruct (Allow_cases now key rl) as [[_ Heq] | [_ Heq]];
    rewrite Heq in *; [done | discriminate].
Qed.

Lemma Allow_denied_no_effect_witness :
  let rl := snd (run rateLimiter (burst 0 "203.0.113.5")) in
  snd (Allow 1000 "203.0.113.5" rl) = rl.
Proof.
  cbv zeta. apply Allow_denied_no_effect. vm_compute. reflexivity.
Defined.


(** *** Nothing stale is left in a stored sequence *)

(** C4 (amended). At the return of a call [Allow(key)], admitted or
    denied, every timestamp in the stored sequence of that key lies in the
    window of one minute that ends at the clock reading of that call: it
    is at most as late as that reading and less than a minute older. The
    sequence of a key is pruned by the calls for that key only, so that
    this holds at those returns and not at every later instant. *)
Theorem stored_within_window calls now key :
  chronological (calls ++ [(now, key)]) ->
  Forall (fun t => now - Minute < t <= now)
         (stored (snd (run rateLimiter (calls ++ [(now, key)]))) key).
Proof.
  intros Hchr.
  assert (Hle : Forall (fun t => t <= now)
                  (stored (snd (run rateLimiter (calls ++ [(now, key)]))) key)).
  { apply stored_times.
    - rewrite stored_init. constructor.
    - apply Forall_app. split; [by apply (chronological_snoc calls now key) |].
      repeat constructor. simpl. lia. }
  assert (Hwin : Forall (in_window now)
                   (stored (snd (run rateLimiter (calls ++ [(now, key)]))) key)).
  { rewrite run_snoc_snd.
    set (rl := snd (run rateLimiter calls)).
    assert (Hr : reachable rl) by (apply run_reachable; constructor).
    destruct (Allow_cases now key rl) as [[Hfull ->] | [_ ->]]; cbn [snd].
    - rewrite <- (denied_nothing_stale now key rl Hr Hfull).
      unfold pruned. rewrite Forall_forall. intros t Ht.
      by apply list_elem_of_filter in Ht as [Ht _].
    - rewrite stored_insert_eq. apply Forall_app. split.
      + unfold pruned. rewrite Forall_forall. intros t Ht.
        by apply list_elem_of_filter in Ht as [Ht _].
      + repeat constructor. unfold in_window. rewrite Minute_ns. lia. }
  rewrite Forall_forall in *. intros t Ht.
  specialize (Hle t Ht). specialize (Hwin t Ht).
  unfold in_window in Hwin. lia.
Qed.

Lemma stored_within_window_witness :
  Forall (fun t => 90000000000 - Minute < t <= 90000000000)
         (stored (snd (run rateLimiter
                         ([(0, "203.0.113.5"); (45000000000, "203.0.113.5")]
                            ++ [(90000000000, "203.0.113.5")])))
                 "203.0.113.5").
Proof.
  apply (stored_within_window
           [(0, "203.0.113.5"); (45000000000, "203.0.113.5")]
           90000000000 "203.0.113.5").
  simpl. repeat constructor; simpl; lia.
Defined.

(** C4 as it was stated does not hold: a timestamp stays in the stored
    sequence of its key until a later call for the same key is admitted.
    After [Allow] for one key at [0] and for another key a hundred seconds
    later, both returned, the first key still holds the timestamp [0],
    which is not in the window of one minute that ends then. *)
Lemma stale_entry_left :
  let calls := [(0, "203.0.113.5"); (100 * Second, "198.51.100.7")] in
  chronological calls /\
  stored (snd (run rateLimiter calls)) "203.0.113.5" = [0] /\
  ~ Forall (fun t => 100 * Second - Minute < t <= 100 * Second)
           (stored (snd (run rateLimiter calls)) "203.0.113.5").
Proof.
  cbv zeta. split; [| split].
  - simpl. repeat constructor; simpl; vm_compute; discriminate.
  - vm_compute. reflexivity.
  - intros H. assert (Hst : stored (snd (run rateLimiter
        [(0, "203.0.113.5"); (100 * Second, "198.51.100.7")])) "203.0.113.5"
        = [0]) by (vm_compute; reflexivity).
    rewrite Hst in H. apply Forall_cons_1 in H as [[H _] _].
    vm_compute in H. discriminate.
Qed.

(** *** Keys do not interfere *)

(** C7. For distinct keys [A] and [B], a sequence of calls [Allow(A)], at
    any times and however many, leaves the stored sequence of [B] as it
    was, and a call [Allow(B)] after it returns what it would have
    returned without it and leaves the same stored sequence for [B]. *)
Theorem distinct_keys_independent A B (times : list Time) rl :
  A <> B ->
  let rl' := snd (run rl (map (fun t => (t, A)) times)) in
  requests rl' !! B = requests rl !! B /\
  stored rl' B = stored rl B /\
  forall now,
    fst (Allow now B rl') = fst (Allow now B rl) /\
    stored (snd (Allow now B rl')) B = stored (snd (Allow now B rl)) B.
Proof.
  intros Hne. cbv zeta.
  assert (Hreq : requests (snd (run rl (map (fun t => (t, A)) times))) !! B
                 = requests rl !! B).
  { revert rl. induction times as [| t times IH]; intros rl; [done |].
    cbn [map]. rewrite run_cons_snd, IH. by apply Allow_requests_ne. }
  assert (Hst : stored (snd (run rl (map (fun t => (t, A)) times))) B
                = stored rl B)
    by (unfold stored; by rewrite Hreq).
  split; [done | split; [done |]].
  intros now. by apply Allow_local.
Qed.

Lemma distinct_keys_independent_witness :
  let rl' := snd (run rateLimiter
                    (map (fun t => (t, "198.51.100.7")) (repeat 0 40))) in
  fst (Allow 0 "203.0.113.5" rl') = true.
Proof.
  cbv zeta.
  destruct (distinct_keys_independent "198.51.100.7" "203.0.113.5"
              (repeat 0 40) rateLimiter) as (_ & _ & H).
  - discriminate.
  - destruct (H 0) as [-> _]. reflexivity.
Defined.


(** *** The window slides *)

Lemma filter_all {A} (P : A -> Prop) `{!forall x, Decision (P x)} (l : list A) :
  Forall P l -> filter P l = l.
Proof.
  induction 1 as [| x l Hx _ IH]; [done |].
  rewrite filter_cons_True by done. by rewrite IH.
Qed.

(** C6. Take a key that was denied: its stored sequence then holds thirty
    admissions. Once the clock is a minute or more past the oldest of
    them, the next call for the key is admitted; and if the other
    twenty-nine are still inside the window, the admission replaces the
    expired one, so that thirty admissions are in the window again. *)
Theorem window_slides rl key denied_at now oldest rest :
  reachable rl ->
  fst (Allow denied_at key rl) = false ->
  stored rl key = oldest :: rest ->
  Minute <= now - oldest ->
  let rl1 := snd (Allow denied_at key rl) in
  let rl2 := snd (Allow now key rl1) in
  length (stored rl key) = 30%nat /\
  fst (Allow now key rl1) = true /\
  (Forall (fun t => now - t < Minute) rest ->
   stored rl2 key = rest ++ [now] /\
   length (filter (fun t => now - t < Minute) (stored rl2 key)) = 30%nat).
Proof.
  intros Hr Hdenied Hst Hold. cbv zeta.
  pose proof (reachable_length rl key Hr) as Hle.
  destruct (Allow_cases denied_at key rl) as [[Hfull Heq] | [_ Heq]];
    rewrite Heq in *; [clear Hdenied | discriminate].
  cbn [snd].
  pose proof (pruned_length denied_at key rl) as Hpl.
  assert (Hlen : length (stored rl key) = 30%nat) by lia.
  assert (Hrest : length rest = 29%nat) by (rewrite Hst in Hlen; simpl in Hlen; lia).
  assert (Hpr : pruned now key rl = filter (in_window now) rest).
  { unfold pruned. rewrite Hst. apply filter_cons_False.
    unfold in_window. lia. }
  assert (Hshort : (length (pruned now key rl) < 30)%nat).
  { rewrite Hpr. pose proof (length_filter (in_window now) rest). lia. }
  rewrite (Allow_admitted now key rl Hshort). cbn [fst snd].
  split; [done | split; [done |]].
  intros Hin. rewrite stored_insert_eq, Hpr.
  change (fun t => now - t < Minute) with (in_window now) in *.
  rewrite (filter_all _ rest Hin). split; [done |].
  rewrite filter_all.
  - rewrite length_app. simpl. lia.
  - apply Forall_app. split; [done |].
    repeat constructor. unfold in_window. rewrite Minute_ns. lia.
Qed.

(** Thirty admissions one second apart, from [0] on. *)
Lemma window_slides_witness :
  let rl := snd (run rateLimiter spaced) in
  fst (Allow 60000000000 "203.0.113.5"
         (snd (Allow 29000000000 "203.0.113.5" rl))) = true.
Proof.
  cbv zeta.
  refine (proj1 (proj2 (window_slides
                   (snd (run rateLimiter spaced)) "203.0.113.5"
                   29000000000 60000000000 0
                   (tail (stored (snd (run rateLimiter spaced)) "203.0.113.5"))
                   _ _ _ _))).
  - apply run_reachable. constructor.
  - vm_compute. reflexivity.
  - vm_compute. reflexivity.
  - vm_compute. discriminate.
Defined.

(** *** The guarantee *)

(** C2. In a run of the program from its start, with calls in the order
    of the clock, the admissions of a key in any window of one minute
    that ends at an instant [T] number at most thirty; and at the end of
    the run, as after each of its calls, the stored sequence of the key
    has at most thirty entries. *)
Theorem at_most_30_per_window calls key T :
  chronological calls ->
  (length (filter (fun t => (T - Minute < t <= T)%Z)
             (admissions key rateLimiter calls)) <= 30)%nat /\
  (length (stored (snd (run rateLimiter calls)) key) <= 30)%nat.
Proof.
  intros Hchr. split.
  - destruct (chronological_split T calls Hchr)
      as (before & after & -> & Hbefore & Hafter).
    rewrite admissions_app, filter_app.
    rewrite (filter_none _ (admissions key _ after)).
    + rewrite app_nil_r.
      rewrite <- (list_filter_filter_l _ (in_window T))
        by (unfold in_window; intros t; lia).
      etransitivity; [apply length_filter |].
      pose proof (window_stored_admissions T key before rateLimiter Hbefore) as Hw.
      rewrite stored_init in Hw. simpl in Hw. rewrite Hw.
      etransitivity; [apply length_filter |].
      apply reachable_length, run_reachable. constructor.
    + apply admissions_times.
      eapply Forall_impl; [exact Hafter |]. intros [t k] Hc; simpl in *; lia.
  - apply reachable_length, run_reachable. constructor.
Qed.

Lemma at_most_30_per_window_witness :
  (length (filter (fun t => (59000000000 - Minute < t <= 59000000000)%Z)
             (admissions "203.0.113.5" rateLimiter
                (spaced ++ [(29000000000%Z, "203.0.113.5")]))) <= 30)%nat.
Proof.
  apply (at_most_30_per_window
           (spaced ++ [(29000000000, "203.0.113.5")])
           "203.0.113.5" 59000000000).
  vm_compute. repeat split; repeat constructor; discriminate.
Defined.


(** The scenario of the specification: of thirty-one calls for one key
    within one second, the first thirty are admitted and the last one is
    denied; a minute after the first, a call is admitted again. *)
Example burst_scenario :
  fst (run rateLimiter
         (burst 0 "203.0.113.5" ++ [(Second, "203.0.113.5"); (Minute, "203.0.113.5")]))
  = repeat true 30 ++ [false; true].
Proof. vm_compute. reflexivity. Qed.

End RateLimiterFacts.

(** ** The fingerprint hash *)

Section HashFacts.
Import JS Reduce.

Implicit Types (str : JSString) (hash acc c n d : Z).

(** *** 32-bit arithmetic *)

Lemma ToInt32_wrap32 x : ToInt32 x = wrap32 x.
Proof.
  unfold ToInt32, wrap32.
  change (2 ^ 32) with 4294967296. change (2 ^ 31) with 2147483648.
  destruct (Z.leb_spec 2147483648 (x mod 4294967296));
    Z.div_mod_to_equations; lia.
Qed.

Lemma wrap32_range x : - 2 ^ 31 <= wrap32 x < 2 ^ 31.
Proof.
  unfold wrap32.
  change (2 ^ 32) with 4294967296. change (2 ^ 31) with 2147483648.
  Z.div_mod_to_equations; lia.
Qed.

Lemma wrap32_small x : - 2 ^ 31 <= x < 2 ^ 31 -> wrap32 x = x.
Proof.
  unfold wrap32.
  change (2 ^ 32) with 4294967296. change (2 ^ 31) with 2147483648.
  intros H. Z.div_mod_to_equations; lia.
Qed.

(** Truncation sees its argument modulo [2^32] only. *)
Lemma wrap32_congr x y k : x = y + k * 2 ^ 32 -> wrap32 x = wrap32 y.
Proof.
  intros ->. unfold wrap32.
  replace (y + k * 2 ^ 32 + 2 ^ 31) with (y + 2 ^ 31 + k * 2 ^ 32) by ring.
  by rewrite Z.mod_add.
Qed.

Lemma wrap32_decompose x : exists k, wrap32 x = x + k * 2 ^ 32.
Proof.
  exists (- ((x + 2 ^ 31) / 2 ^ 32)). unfold wrap32.
  change (2 ^ 32) with 4294967296. change (2 ^ 31) with 2147483648.
  Z.div_mod_to_equations; lia.
Qed.

Lemma shl_5 hash : shl hash 5 = wrap32 (hash * 32).
Proof.
  unfold shl, ToUint32.
  change (5 mod 2 ^ 32 mod 32) with 5.
  rewrite Z.shiftl_mul_pow2 by lia. change (2 ^ 5) with 32.
  rewrite !ToInt32_wrap32.
  destruct (wrap32_decompose hash) as [k ->].
  apply (wrap32_congr _ _ (k * 32)). ring.
Qed.

Lemma band_diag x : band x x = wrap32 x.
Proof.
  unfold band. rewrite Z.land_diag, !ToInt32_wrap32.
  apply wrap32_small, wrap32_range.
Qed.

(** One turn of the loop of [hashString] is the step of the
    specification. *)
Lemma loop_step hash c : band (shl hash 5 - hash + c) (shl hash 5 - hash + c) = step hash c.
Proof.
  rewrite band_diag, shl_5. unfold step.
  rewrite Z.shiftl_mul_pow2 by lia. change (2 ^ 5) with 32.
  destruct (wrap32_decompose (hash * 32)) as [k ->].
  apply (wrap32_congr _ _ k). ring.
Qed.

Lemma hash_loop_accumulate str hash : hash_loop str hash = accumulate hash str.
Proof.
  revert hash. induction str as [| c rest IH]; intros hash; [done |].
  cbn [hash_loop]. cbv zeta. rewrite loop_step, IH. reflexivity.
Qed.

(** The step is also [acc * 31 + c], truncated. *)
Lemma step_31 acc c : step acc c = wrap32 (acc * 31 + c).
Proof.
  unfold step. rewrite Z.shiftl_mul_pow2 by lia. f_equal. change (2 ^ 5) with 32. ring.
Qed.

Lemma accumulate_range acc str :
  - 2 ^ 31 <= acc < 2 ^ 31 -> - 2 ^ 31 <= accumulate acc str < 2 ^ 31.
Proof.
  revert acc. induction str as [| c rest IH]; intros acc Hacc; [done |].
  apply IH, wrap32_range.
Qed.


(** The numbers in the loop are integers that a JavaScript number holds
    exactly: they stay far below [2^53] in magnitude. *)
Lemma loop_exact hash c :
  - 2 ^ 31 <= hash < 2 ^ 31 -> code_unit c ->
  - 2 ^ 53 < shl hash 5 - hash + c < 2 ^ 53.
Proof.
  intros Hh Hc. rewrite shl_5. pose proof (wrap32_range (hash * 32)) as Hs.
  unfold code_unit in Hc.
  change (2 ^ 31) with 2147483648 in *. change (2 ^ 53) with 9007199254740992.
  lia.
Qed.

(** *** Hexadecimal digits *)

Lemma digit_cases d :
  0 <= d < 16 ->
  d = 0 \/ d = 1 \/ d = 2 \/ d = 3 \/ d = 4 \/ d = 5 \/ d = 6 \/ d = 7 \/
  d = 8 \/ d = 9 \/ d = 10 \/ d = 11 \/ d = 12 \/ d = 13 \/ d = 14 \/ d = 15.
Proof. lia. Qed.

Lemma hex_digit_char d : 0 <= d < 16 -> hex_digit (digit_char d) = Some d.
Proof.
  intros H. apply digit_cases in H.
  repeat (destruct H as [-> | H]; [reflexivity |]). by subst.
Qed.

Lemma digit_char_zero d : 0 <= d < 16 -> digit_char d = "0"%char -> d = 0.
Proof.
  intros H. apply digit_cases in H.
  repeat (destruct H as [-> | H]; [by (vm_compute; intros ?; simplify_eq) |]).
  subst. vm_compute. intros ?; simplify_eq.
Qed.

Lemma hex_value_from_snoc acc (l : list ascii) (c : ascii) :
  hex_value_from acc (string_of_list_ascii (l ++ [c])) =
    match hex_value_from acc (string_of_list_ascii l), hex_digit c with
    | Some v, Some d => Some (v * 16 + d)
    | _, _ => None
    end.
Proof.
  revert acc. induction l as [| b l IH]; intros acc; simpl.
  - by destruct (hex_digit c).
  - destruct (hex_digit b); [apply IH |]. by destruct (hex_digit c).
Qed.

Lemma digits_rev_value fuel n :
  0 <= n < 2 ^ Z.of_nat fuel ->
  hex_value_from 0 (string_of_list_ascii (rev (digits_rev fuel 16 n))) = Some n.
Proof.
  revert n. induction fuel as [| fuel IH]; intros n Hn.
  - simpl in *. f_equal. lia.
  - cbn [digits_rev]. destruct (Z.ltb_spec n 16) as [Hlt | Hge].
    + simpl. rewrite hex_digit_char by lia. f_equal.
    + cbn [rev]. rewrite hex_value_from_snoc, IH.
      * rewrite hex_digit_char by (apply Z.mod_pos_bound; lia).
        f_equal. Z.div_mod_to_equations; lia.
      * rewrite Nat2Z.inj_succ, Z.pow_succ_r in Hn by lia.
        Z.div_mod_to_equations; lia.
Qed.

Lemma digits_fuel_enough n : 0 <= n -> n < 2 ^ Z.of_nat (digits_fuel n).
Proof.
  intros Hn. unfold digits_fuel.
  rewrite !Nat2Z.inj_succ, Z2Nat.id by apply Z.log2_nonneg.
  destruct (Z.eq_dec n 0) as [-> | Hne]; [done |].
  pose proof (Z.log2_spec n ltac:(lia)) as [_ Hup].
  rewrite (Z.pow_succ_r 2 (Z.succ _)) by (pose proof (Z.log2_nonneg n); lia).
  lia.
Qed.

(** The most significant digit of a positive number is not zero. *)
Lemma digits_rev_leading fuel n :
  1 <= n < 2 ^ Z.of_nat fuel ->
  exists k l, 1 <= k < 16 /\ digits_rev fuel 16 n = l ++ [digit_char k].
Proof.
  revert n. induction fuel as [| fuel IH]; intros n Hn.
  - simpl in Hn. lia.
  - cbn [digits_rev]. destruct (Z.ltb_spec n 16) as [Hlt | Hge].
    + exists n, []. split; [lia | done].
    + destruct (IH (n / 16)) as (k & l & Hk & ->).
      * rewrite Nat2Z.inj_succ, Z.pow_succ_r in Hn by lia.
        Z.div_mod_to_equations; lia.
      * exists k, (digit_char (n mod 16) :: l). split; [done | done].
Qed.

Lemma digits_16_value n : 0 <= n -> hex_value (digits 16 n) = Some n.
Proof.
  intros Hn. unfold hex_value, digits.
  rewrite <- (digits_rev_value (digits_fuel n) n)
    by (split; [done | by apply digits_fuel_enough]).
  destruct (string_of_list_ascii (rev (digits_rev (digits_fuel n) 16 n)))
    eqn:E; [| done].
  exfalso. apply (f_equal list_ascii_of_string) in E.
  rewrite list_ascii_of_string_of_list_ascii in E. simpl in E.
  apply (f_equal (@rev ascii)) in E. rewrite rev_involutive in E.
  unfold digits_fuel in E. cbn [digits_rev] in E.
  by destruct (n <? 16).
Qed.

Lemma digits_16_canonical n : 0 <= n -> no_leading_zero (digits 16 n).
Proof.
  intros Hn. destruct (Z.eq_dec n 0) as [-> | Hne].
  - by left.
  - right. unfold digits.
    destruct (digits_rev_leading (digits_fuel n) n) as (k & l & Hk & ->).
    { split; [lia | by apply digits_fuel_enough]. }
    rewrite rev_app_distr. simpl.
    exists (digit_char k), (string_of_list_ascii (rev l)). split; [done |].
    intros Hz. apply digit_char_zero in Hz; lia.
Qed.

Lemma hashString_eq str :
  hashString str = Number_toString 16 (Z.abs (accumulate 0 str)).
Proof.
  unfold hashString. cbv zeta. destruct str as [| c rest]; [done |].
  cbn [length Nat.eqb]. by rewrite hash_loop_accumulate.
Qed.

Lemma Number_toString_nonneg radix n :
  0 <= n -> Number_toString radix n = digits radix n.
Proof.
  intros Hn. unfold Number_toString.
  destruct (Z.ltb_spec n 0); [lia | done].
Qed.


(** *** Uniqueness of the hexadecimal numeral *)

Lemma hex_digit_range (b : ascii) d : hex_digit b = Some d -> 0 <= d < 16.
Proof.
  unfold hex_digit. cbv zeta.
  destruct (Z.leb_spec 48 (Z.of_nat (nat_of_ascii b)));
    destruct (Z.leb_spec (Z.of_nat (nat_of_ascii b)) 57);
    destruct (Z.leb_spec 97 (Z.of_nat (nat_of_ascii b)));
    destruct (Z.leb_spec (Z.of_nat (nat_of_ascii b)) 102);
    simpl; intros ?; simplify_eq; lia.
Qed.

Lemma hex_digit_inj (b1 b2 : ascii) d :
  hex_digit b1 = Some d -> hex_digit b2 = Some d -> b1 = b2.
Proof.
  intros H1 H2.
  assert (Hn : nat_of_ascii b1 = nat_of_ascii b2).
  { revert H1 H2. unfold hex_digit. cbv zeta.
    destruct (Z.leb_spec 48 (Z.of_nat (nat_of_ascii b1)));
      destruct (Z.leb_spec (Z.of_nat (nat_of_ascii b1)) 57);
      destruct (Z.leb_spec 97 (Z.of_nat (nat_of_ascii b1)));
      destruct (Z.leb_spec (Z.of_nat (nat_of_ascii b1)) 102);
      destruct (Z.leb_spec 48 (Z.of_nat (nat_of_ascii b2)));
      destruct (Z.leb_spec (Z.of_nat (nat_of_ascii b2)) 57);
      destruct (Z.leb_spec 97 (Z.of_nat (nat_of_ascii b2)));
      destruct (Z.leb_spec (Z.of_nat (nat_of_ascii b2)) 102);
      simpl; intros ? ?; simplify_eq; lia. }
  rewrite <- (ascii_nat_embedding b1), <- (ascii_nat_embedding b2).
  by rewrite Hn.
Qed.

Lemma hex_digit_zero (b : ascii) : hex_digit b = Some 0 -> b = "0"%char.
Proof. intros H. by apply (hex_digit_inj b "0" 0). Qed.

(** The value of a numeral of [k] digits read after a prefix of value
    [acc] is [acc * 16^k] plus the value of the numeral, which is less
    than [16^k]. *)
Lemma hex_value_from_shift (s : string) acc v :
  hex_value_from acc s = Some v ->
  exists w, 0 <= w < 16 ^ Z.of_nat (String.length s) /\
    forall acc', hex_value_from acc' s
                 = Some (acc' * 16 ^ Z.of_nat (String.length s) + w).
Proof.
  revert acc v. induction s as [| b s IH]; intros acc v Hv.
  - exists 0. split; [simpl; lia |]. intros acc'. simpl. f_equal. lia.
  - cbn [hex_value_from] in Hv. destruct (hex_digit b) as [d |] eqn:Hd; [| done].
    destruct (IH _ _ Hv) as (w & Hw & Hall).
    pose proof (hex_digit_range b d Hd) as Hdr.
    cbn [String.length]. rewrite Nat2Z.inj_succ, Z.pow_succ_r by lia.
    exists (d * 16 ^ Z.of_nat (String.length s) + w). split; [nia |].
    intros acc'. cbn [hex_value_from]. rewrite Hd, Hall. f_equal. ring.
Qed.

Lemma hex_value_same_length (s1 s2 : string) v :
  String.length s1 = String.length s2 ->
  hex_value_from 0 s1 = Some v -> hex_value_from 0 s2 = Some v -> s1 = s2.
Proof.
  revert s2 v. induction s1 as [| b1 s1 IH]; intros [| b2 s2] v Hlen H1 H2;
    try done.
  cbn [hex_value_from] in H1, H2. injection Hlen as Hlen.
  destruct (hex_digit b1) as [d1 |] eqn:Hd1; [| done].
  destruct (hex_digit b2) as [d2 |] eqn:Hd2; [| done].
  destruct (hex_value_from_shift _ _ _ H1) as (w1 & Hw1 & Hall1).
  destruct (hex_value_from_shift _ _ _ H2) as (w2 & Hw2 & Hall2).
  rewrite Hall1 in H1. rewrite Hall2 in H2. rewrite <- Hlen in *.
  pose proof (hex_digit_range _ _ Hd1). pose proof (hex_digit_range _ _ Hd2).
  set (P := 16 ^ Z.of_nat (String.length s1)) in *.
  assert (HP : 0 < P) by (apply Z.pow_pos_nonneg; lia).
  assert (Heq : d1 * P + w1 = d2 * P + w2) by (simplify_eq; lia).
  assert (d1 = d2) as -> by nia.
  assert (w1 = w2) as -> by lia.
  f_equal; [by apply (hex_digit_inj _ _ d2) |].
  apply (IH s2 w2 Hlen).
  - rewrite Hall1; f_equal; lia.
  - rewrite Hall2; f_equal; lia.
Qed.

(** A numeral that does not start with zero is at least [16^(k-1)]. *)
Lemma hex_value_leading (b : ascii) (rest : string) v :
  b <> "0"%char -> hex_value (String b rest) = Some v ->
  16 ^ Z.of_nat (String.length rest) <= v
    < 16 ^ Z.of_nat (S (String.length rest)).
Proof.
  intros Hb Hv. unfold hex_value in Hv. cbn [hex_value_from] in Hv.
  destruct (hex_digit b) as [d |] eqn:Hd; [| done].
  destruct (hex_value_from_shift _ _ _ Hv) as (w & Hw & Hall).
  rewrite Hall in Hv. pose proof (hex_digit_range _ _ Hd).
  assert (d <> 0) by (intros ->; by apply Hb, hex_digit_zero).
  rewrite Nat2Z.inj_succ, Z.pow_succ_r by lia.
  set (P := 16 ^ Z.of_nat (String.length rest)) in *.
  assert (HP : 0 < P) by (apply Z.pow_pos_nonneg; lia).
  assert (v = d * P + w) as -> by (simplify_eq; lia).
  nia.
Qed.

(** Two numerals without leading zeros that denote the same number are
    the same string. *)
Lemma hex_numeral_unique (s1 s2 : string) v :
  no_leading_zero s1 -> no_leading_zero s2 ->
  hex_value s1 = Some v -> hex_value s2 = Some v -> s1 = s2.
Proof.
  intros [-> | (b1 & r1 & -> & Hb1)] [-> | (b2 & r2 & -> & Hb2)] H1 H2.
  - done.
  - pose proof (hex_value_leading _ _ _ Hb2 H2) as Hv.
    vm_compute in H1. simplify_eq.
    pose proof (Z.pow_pos_nonneg 16 (Z.of_nat (String.length r2))). lia.
  - pose proof (hex_value_leading _ _ _ Hb1 H1) as Hv.
    vm_compute in H2. simplify_eq.
    pose proof (Z.pow_pos_nonneg 16 (Z.of_nat (String.length r1))). lia.
  - pose proof (hex_value_leading _ _ _ Hb1 H1) as Hv1.
    pose proof (hex_value_leading _ _ _ Hb2 H2) as Hv2.
    assert (Hlen : String.length r1 = String.length r2).
    { destruct (Nat.lt_trichotomy (String.length r1) (String.length r2))
        as [Hlt | [Heq | Hgt]]; [exfalso | done | exfalso].
      - pose proof (Z.pow_le_mono_r 16 (Z.of_nat (S (String.length r1)))
                      (Z.of_nat (String.length r2))). lia.
      - pose proof (Z.pow_le_mono_r 16 (Z.of_nat (S (String.length r2)))
                      (Z.of_nat (String.length r1))). lia. }
    apply (hex_value_same_length _ _ v); [simpl; by rewrite Hlen | done | done].
Qed.


(** *** The reduction *)

(** C3. [hashString] is the reduction of the specification: its
    accumulator is the one obtained from zero by the step
    [acc = (acc << 5) - acc + c], truncated to 32 bits in two's
    complement, over the character codes in order; its result reads, as
    lowercase hexadecimal without sign, as the absolute value of that
    accumulator and has no leading zeros, and it is the only string that
    does; and the empty input gives ["0"]. *)
Theorem hashString_is_Reduce str :
  hash_of str = accumulate 0 str /\
  hex_value (hashString str) = Some (Z.abs (accumulate 0 str)) /\
  no_leading_zero (hashString str) /\
  (forall s : string,
     hex_value s = Some (Z.abs (accumulate 0 str)) ->
     no_leading_zero s -> s = hashString str) /\
  hashString [] = "0"%string.
Proof.
  split; [apply hash_loop_accumulate |].
  rewrite hashString_eq, Number_toString_nonneg by apply Z.abs_nonneg.
  pose proof (digits_16_value _ (Z.abs_nonneg (accumulate 0 str))) as Hval.
  pose proof (digits_16_canonical _ (Z.abs_nonneg (accumulate 0 str))) as Hcan.
  split; [done | split; [done | split; [| reflexivity]]].
  intros s Hs Hz. by apply (hex_numeral_unique _ _ (Z.abs (accumulate 0 str))).
Qed.

Lemma hashString_is_Reduce_witness : "5e918d2"%string = hashString hello.
Proof.
  apply (proj1 (proj2 (proj2 (proj2 (hashString_is_Reduce hello))))).
  - reflexivity.
  - right. exists "5"%char, "e918d2"%string. split; [reflexivity | discriminate].
Defined.


Lemma hash_of_range str : - 2 ^ 31 <= hash_of str < 2 ^ 31.
Proof.
  unfold hash_of. rewrite hash_loop_accumulate.
  apply accumulate_range. split; [by vm_compute | reflexivity].
Qed.

Lemma hashString_value str :
  hex_value (hashString str) = Some (Z.abs (hash_of str)).
Proof.
  unfold hash_of. rewrite hash_loop_accumulate, hashString_eq.
  rewrite Number_toString_nonneg by apply Z.abs_nonneg.
  apply digits_16_value, Z.abs_nonneg.
Qed.

Lemma hashString_abs32_min str :
  hash_of str = - 2 ^ 31 ->
  hashString str = "80000000"%string /\
  hashString_abs32 str = "-80000000"%string.
Proof.
  intros Hmin. destruct str as [| c rest]; [discriminate |].
  unfold hashString, hashString_abs32. cbn [length Nat.eqb]. cbv zeta.
  change (hash_loop (c :: rest) 0) with (hash_of (c :: rest)).
  rewrite Hmin. split; reflexivity.
Qed.

Lemma hashString_abs32_same str :
  hash_of str <> - 2 ^ 31 -> hashString_abs32 str = hashString str.
Proof.
  intros Hne. destruct str as [| c rest]; [reflexivity |].
  unfold hashString, hashString_abs32. cbn [length Nat.eqb]. cbv zeta.
  change (hash_loop (c :: rest) 0) with (hash_of (c :: rest)).
  pose proof (hash_of_range (c :: rest)) as Hr.
  unfold abs32, Math_abs. rewrite wrap32_small; [done | lia].
Qed.

(** C10. [hashString] returns a digest for every input, and the digest
    reads as the absolute value of the final accumulator, taken among the
    integers: a number from [0] to [2^31], both included. When the
    accumulator ends at [-2^31], as it does for ["polygenelubricants"], the
    digest is ["80000000"], where a reimplementation with the absolute
    value of 32-bit arithmetic gives the negative ["-80000000"]; and that
    reimplementation differs from [hashString] on these inputs and on no
    other. *)
Theorem digest_range_min_int str :
  hex_value (hashString str) = Some (Z.abs (hash_of str)) /\
  0 <= Z.abs (hash_of str) <= 2 ^ 31 /\
  (hash_of str = - 2 ^ 31 ->
   hashString str = "80000000"%string /\
   hashString_abs32 str = "-80000000"%string) /\
  (hashString_abs32 str <> hashString str <-> hash_of str = - 2 ^ 31) /\
  hash_of polygenelubricants = - 2 ^ 31 /\
  abs32 (- 2 ^ 31) = - 2 ^ 31 /\
  (forall acc, - 2 ^ 31 <= acc < 2 ^ 31 ->
     (abs32 acc <> Z.abs acc <-> acc = - 2 ^ 31)).
Proof.
  split; [apply hashString_value |].
  split; [pose proof (hash_of_range str); lia |].
  split; [apply hashString_abs32_min |].
  split; [| split; [reflexivity | split; [reflexivity |]]].
  - split.
    + intros Hdiff.
      destruct (Z.eq_dec (hash_of str) (- 2 ^ 31)) as [| Hne]; [done |].
      exfalso. by apply Hdiff, hashString_abs32_same.
    + intros Hmin. destruct (hashString_abs32_min str Hmin) as [-> ->].
      discriminate.
  - intros acc Hacc. unfold abs32. split.
    + intros Hne. destruct (Z.eq_dec acc (- 2 ^ 31)) as [| Hother]; [done |].
      exfalso. apply Hne, wrap32_small. lia.
    + intros ->. vm_compute. discriminate.
Qed.

Lemma digest_range_min_int_witness :
  hashString polygenelubricants = "80000000"%string /\
  hashString_abs32 polygenelubricants = "-80000000"%string.
Proof.
  apply (proj1 (proj2 (proj2 (digest_range_min_int polygenelubricants)))).
  reflexivity.
Defined.

(** The digests of the specification's examples. *)
Example hashString_hello : hashString hello = "5e918d2"%string.
Proof. reflexivity. Qed.

End HashFacts.

(** ** The client key *)

Section ClientKeyFacts.
Import GoStrings Net Main.
Local Open Scope string_scope.
Local Open Scope Z_scope.

Implicit Types (s host port : string) (b c : ascii) (i : Z) (r : Request).

(** *** Splitting at commas *)

Lemma Split_nonempty s c : Split s c <> [].
Proof.
  destruct s as [| b s]; simpl; [done |].
  destruct (Ascii.eqb b c); [done |]. by destruct (Split s c).
Qed.

(** The first piece is the part of the string before the first
    separator: it has no separator in it, and the string continues after
    it with a separator or not at all. *)
Lemma Split_first s c :
  IndexByteString (index0 (Split s c)) c = -1 /\
  exists rest,
    s = index0 (Split s c) ++ rest /\
    (rest = "" \/ exists rest', rest = String c rest').
Proof.
  induction s as [| b s [IHidx (rest & IHeq & IHrest)]]; simpl.
  - split; [done |]. exists "". split; [done | by left].
  - destruct (Ascii.eqb_spec b c) as [-> | Hne]; simpl.
    + split; [done |]. exists (String c s). split; [done |].
      right. by exists s.
    + pose proof (Split_nonempty s c) as Hnil.
      destruct (Split s c) as [| piece pieces]; [done |]. simpl in *.
      split.
      * destruct (Ascii.eqb_spec b c); [done |]. by rewrite IHidx.
      * exists rest. split; [by subst s | done].
Qed.

(** *** Splitting host and port *)

Lemma substring_all (s : string) : substring 0 (String.length s) s = s.
Proof. induction s as [| a s IH]; simpl; [done |]. by rewrite IH. Qed.

Lemma substring_split (s : string) (n : nat) b :
  String.get n s = Some b ->
  s = substring 0 n s ++ String b (substring (S n) (String.length s - S n) s).
Proof.
  revert n. induction s as [| a s IH]; intros n Hget; [by destruct n |].
  destruct n as [| n].
  - simpl in Hget. injection Hget as ->.
    change (String b s = String b (substring 0 (String.length s - 0) s)).
    by rewrite Nat.sub_0_r, substring_all.
  - change (String a s =
            String a (substring 0 n s
                        ++ String b (substring (S n) (String.length s - S n) s))).
    f_equal. by apply IH.
Qed.

Lemma get_length (s : string) (n : nat) b :
  String.get n s = Some b -> (n < String.length s)%nat.
Proof.
  revert n. induction s as [| a s IH]; intros n Hget; [by destruct n |].
  destruct n as [| n]; simpl in *; [lia |].
  apply IH in Hget. lia.
Qed.

(** [s] is what comes before index [i], the byte at [i], and what comes
    after it. *)
Lemma slice_split s i b :
  0 <= i -> byte_at s i = Some b ->
  s = slice s 0 i ++ String b (slice_from s (i + 1)).
Proof.
  intros Hi Hget. unfold byte_at in Hget.
  pose proof (get_length _ _ _ Hget) as Hlen.
  unfold slice_from, slice, len.
  rewrite Z.sub_0_r. change (Z.to_nat 0) with 0%nat.
  replace (Z.to_nat (i + 1)) with (S (Z.to_nat i)) by lia.
  replace (Z.to_nat (Z.of_nat (String.length s) - (i + 1)))
    with (String.length s - S (Z.to_nat i))%nat by lia.
  by apply substring_split.
Qed.

Lemma IndexByteString_byte s c i :
  IndexByteString s c = i -> 0 <= i -> byte_at s i = Some c.
Proof.
  revert i. induction s as [| b s IH]; intros i Hidx Hi; simpl in Hidx; [lia |].
  destruct (Ascii.eqb_spec b c) as [-> | Hne]; [by subst |].
  destruct (Z.ltb_spec (IndexByteString s c) 0) as [Hneg | Hpos]; [lia |].
  subst i. unfold byte_at in *.
  replace (Z.to_nat (IndexByteString s c + 1))
    with (S (Z.to_nat (IndexByteString s c))) by lia.
  simpl. by apply IH.
Qed.

Lemma LastIndexByteString_byte s c i :
  LastIndexByteString s c = i -> 0 <= i -> byte_at s i = Some c.
Proof.
  revert i. induction s as [| b s IH]; intros i Hidx Hi; simpl in Hidx; [lia |].
  destruct (Z.leb_spec 0 (LastIndexByteString s c)) as [Hpos | Hneg].
  - subst i. unfold byte_at in *.
    replace (Z.to_nat (LastIndexByteString s c + 1))
      with (S (Z.to_nat (LastIndexByteString s c))) by lia.
    simpl. by apply IH.
  - destruct (Ascii.eqb_spec b c) as [-> | Hne]; [by subst | lia].
Qed.


Lemma substring_from_cons (s : string) (n : nat) b :
  String.get n s = Some b ->
  substring n (String.length s - n) s
    = String b (substring (S n) (String.length s - S n) s).
Proof.
  revert n. induction s as [| a s IH]; intros n Hget; [by destruct n |].
  destruct n as [| n].
  - simpl in Hget. injection Hget as ->.
    change (String b (substring 0 (String.length s) s)
            = String b (substring 0 (String.length s - 0) s)).
    by rewrite Nat.sub_0_r.
  - simpl in Hget. apply IH in Hget. exact Hget.
Qed.

Lemma slice_from_cons s i b :
  0 <= i -> byte_at s i = Some b ->
  slice_from s i = String b (slice_from s (i + 1)).
Proof.
  intros Hi Hget. unfold byte_at in Hget.
  pose proof (get_length _ _ _ Hget) as Hlen.
  unfold slice_from, slice, len.
  replace (Z.to_nat (i + 1)) with (S (Z.to_nat i)) by lia.
  replace (Z.to_nat (Z.of_nat (String.length s) - (i + 1)))
    with (String.length s - S (Z.to_nat i))%nat by lia.
  replace (Z.to_nat (Z.of_nat (String.length s) - i))
    with (String.length s - Z.to_nat i)%nat by lia.
  by apply substring_from_cons.
Qed.

Lemma byte_at_String b s i :
  0 <= i -> byte_at (String b s) (i + 1) = byte_at s i.
Proof.
  intros Hi. unfold byte_at.
  by replace (Z.to_nat (i + 1)) with (S (Z.to_nat i)) by lia.
Qed.

Lemma slice_String b s i j :
  0 <= i -> slice (String b s) (i + 1) (j + 1) = slice s i j.
Proof.
  intros Hi. unfold slice.
  replace (Z.to_nat (i + 1)) with (S (Z.to_nat i)) by lia.
  by replace (j + 1 - (i + 1)) with (j - i) by lia.
Qed.

Lemma slice_from_String b s i :
  0 <= i -> slice_from (String b s) (i + 1) = slice_from s i.
Proof.
  intros Hi. unfold slice_from.
  replace (len (String b s)) with (len s + 1)
    by (unfold len; simpl; lia).
  by apply slice_String.
Qed.

Lemma finish_Some hostport host i j k h p :
  finish hostport host i j k = Some (h, p) ->
  h = host /\ p = slice_from hostport (i + 1).
Proof.
  unfold finish.
  destruct (0 <=? IndexByteString (slice_from hostport j) "["); [done |].
  destruct (0 <=? IndexByteString (slice_from hostport k) "]"); [done |].
  intros ?; by simplify_eq.
Qed.

(** When [SplitHostPort] succeeds, the address is the host, bare or in
    brackets, then a colon, then the port. *)
Lemma SplitHostPort_strips hostport host port :
  SplitHostPort hostport = Some (host, port) ->
  hostport = host ++ ":" ++ port \/
  hostport = "[" ++ host ++ "]:" ++ port.
Proof.
  unfold SplitHostPort. cbv zeta.
  destruct (Z.ltb_spec (LastIndexByteString hostport ":") 0) as [| Hi]; [done |].
  pose proof (LastIndexByteString_byte hostport ":" _ eq_refl Hi) as Hcolon.
  set (i := LastIndexByteString hostport ":") in *.
  assert (Hplain :
    finish hostport (slice hostport 0 i) i 0 0 = Some (host, port) ->
    hostport = host ++ ":" ++ port).
  { intros [-> ->]%finish_Some. by apply slice_split. }
  destruct (byte_at hostport 0) as [b |] eqn:Hfirst.
  2: { destruct (0 <=? IndexByteString (slice hostport 0 i) ":"); [done |].
       intros H. left. by apply Hplain. }
  destruct (Ascii.eqb_spec b "[") as [-> | Hnb].
  2: { intros H. left. apply Hplain.
       destruct b as [[] [] [] [] [] [] [] []];
         try (by destruct (0 <=? IndexByteString (slice hostport 0 i) ":"));
         done. }
  destruct (Z.ltb_spec (IndexByteString hostport "]") 0) as [| He]; [done |].
  pose proof (IndexByteString_byte hostport "]" _ eq_refl He) as Hclose.
  set (e := IndexByteString hostport "]") in *.
  destruct (Z.eqb_spec (e + 1) (len hostport)); [done |].
  destruct (Z.eqb_spec (e + 1) i) as [Hei |]; [| done].
  intros [-> ->]%finish_Some. right.
  destruct hostport as [| a s]; [done |].
  unfold byte_at in Hfirst. simpl in Hfirst. injection Hfirst as ->.
  assert (He1 : 1 <= e).
  { destruct (Z.eq_dec e 0) as [He0 | ]; [| lia].
    rewrite He0 in Hclose. unfold byte_at in Hclose. simpl in Hclose. done. }
  change ("[" ++ slice (String "[" s) 1 e ++ "]:" ++ slice_from (String "[" s) (i + 1))
    with (String "[" (slice (String "[" s) 1 e ++ "]:" ++ slice_from (String "[" s) (i + 1))).
  f_equal.
  replace e with ((e - 1) + 1) in Hclose |- * at 1 by lia.
  replace 1 with (0 + 1) at 1 by lia.
  rewrite slice_String by lia.
  rewrite byte_at_String in Hclose by lia.
  rewrite slice_from_String by lia.
  rewrite <- Hei in Hcolon |- *.
  rewrite byte_at_String in Hcolon by lia.
  rewrite (slice_split s (e - 1) "]") at 1 by (done || lia).
  f_equal.
  replace (e - 1 + 1) with e by lia.
  change ("]:" ++ slice_from s (e + 1))
    with (String "]" (String ":" (slice_from s (e + 1)))).
  f_equal. by apply slice_from_cons.
Qed.


(** *** Empty strings, and examples *)

Lemma eqb_empty s : String.eqb s "" = bool_decide (s = "").
Proof.
  destruct (String.eqb_spec s "") as [-> | Hne].
  - by rewrite bool_decide_eq_true_2.
  - by rewrite bool_decide_eq_false_2.
Qed.

Example getClientIP_forwarded :
  getClientIP {| Method := "POST";
                 Header := {[ "X-Forwarded-For" := ["203.0.113.5, 10.0.0.1"] ]};
                 RemoteAddr := "192.0.2.1:4711";
                 Body := "{}" |} = "203.0.113.5".
Proof. vm_compute. reflexivity. Qed.

Example getClientIP_real :
  getClientIP {| Method := "POST";
                 Header := {[ "X-Real-IP" := ["203.0.113.5"] ]};
                 RemoteAddr := "192.0.2.1:4711";
                 Body := "{}" |} = "203.0.113.5".
Proof. vm_compute. reflexivity. Qed.

Example getClientIP_peer :
  getClientIP {| Method := "POST"; Header := ∅;
                 RemoteAddr := "192.0.2.1:4711"; Body := "{}" |} = "192.0.2.1".
Proof. vm_compute. reflexivity. Qed.

Example getClientIP_peer_raw :
  getClientIP {| Method := "POST"; Header := ∅;
                 RemoteAddr := "@"; Body := "{}" |} = "@".
Proof. vm_compute. reflexivity. Qed.

End ClientKeyFacts.

(** ** The submission handler *)

Section HandlerFacts.
Import GoTime GoStrings Net WallClock RateLimiter Utf8 Main.
Local Open Scope string_scope.
Local Open Scope Z_scope.

(** *** The layout of the timestamp *)

Lemma below_in_seq (P : nat -> bool) (bound x : Z) :
  forallb P (seq 0 (Z.to_nat bound)) = true ->
  0 <= x < bound -> P (Z.to_nat x) = true.
Proof.
  intros Hall Hx. rewrite forallb_forall in Hall. apply Hall.
  apply in_seq. lia.
Qed.

Lemma appendInt_two_digits x : 0 <= x <= 99 -> two_digits (appendInt x 2) = true.
Proof.
  intros Hx.
  pose proof (below_in_seq (fun n => two_digits (appendInt (Z.of_nat n) 2))
                100 x) as H.
  cbv beta in H. rewrite Z2Nat.id in H by lia.
  apply H; [by vm_compute | lia].
Qed.

(** The digits of a number do not depend on the fuel, once there is
    enough of it. *)
Lemma decimal_rev_stable (f f' : nat) (n : Z) :
  (1 <= f)%nat -> (f <= f')%nat -> 0 <= n < 10 ^ Z.of_nat f ->
  decimal_rev f' n = decimal_rev f n.
Proof.
  revert f' n. induction f as [| f IH]; intros f' n Hf Hle Hn; [lia |].
  destruct f' as [| f']; [lia |]. cbn [decimal_rev]. cbv zeta.
  destruct (Z.ltb_spec n 10) as [| Hge]; [done |].
  f_equal. apply IH; [| lia |].
  - destruct f; [| lia]. simpl in Hn. lia.
  - rewrite Nat2Z.inj_succ, Z.pow_succ_r in Hn by lia.
    Z.div_mod_to_equations; lia.
Qed.

Lemma decimal_four x :
  0 <= x <= 9999 -> decimal x = rev (decimal_rev 4 x).
Proof.
  intros Hx. unfold decimal. f_equal.
  set (F := S (S (Z.to_nat (Z.log2 x)))).
  assert (Hlog : forall m, 0 < m <= x -> Z.log2 m <= Z.log2 x)
    by (intros m Hm; apply Z.log2_le_mono; lia).
  destruct (Z.lt_ge_cases x 100) as [Hlt | Hge].
  - rewrite (decimal_rev_stable 2 F) by (unfold F; simpl; lia).
    symmetry. apply decimal_rev_stable; simpl; lia.
  - pose proof (Hlog 100 ltac:(lia)) as H100.
    change (Z.log2 100) with 6 in H100.
    rewrite (decimal_rev_stable 4 F) by (unfold F; simpl; lia).
    reflexivity.
Qed.

Lemma decimal_digit d :
  0 <= d < 10 ->
  is_digit (ascii_of_nat (Z.to_nat (48 + d))) = true /\
  digit_val (ascii_of_nat (Z.to_nat (48 + d))) = d.
Proof.
  intros Hd.
  assert (H : d = 0 \/ d = 1 \/ d = 2 \/ d = 3 \/ d = 4 \/ d = 5 \/ d = 6
              \/ d = 7 \/ d = 8 \/ d = 9) by lia.
  repeat (destruct H as [-> | H]; [by vm_compute |]). subst. by vm_compute.
Qed.

Lemma four_digits_of_intro (a b c d : ascii) x :
  is_digit a = true -> is_digit b = true ->
  is_digit c = true -> is_digit d = true ->
  ((digit_val a * 10 + digit_val b) * 10 + digit_val c) * 10 + digit_val d
    = x ->
  four_digits_of x (String a (String b (String c (String d "")))) = true.
Proof.
  intros Ha Hb Hc Hd Hv. cbn [four_digits_of].
  rewrite Ha, Hb, Hc, Hd. by apply Z.eqb_eq.
Qed.

Lemma appendInt_four_digits_of x :
  0 <= x <= 9999 -> four_digits_of x (appendInt x 4) = true.
Proof.
  intros Hx. unfold appendInt. cbv zeta.
  rewrite Z.abs_eq by lia. rewrite (decimal_four x Hx).
  destruct (Z.ltb_spec x 0) as [| _]; [lia |].
  pose proof (decimal_digit (x mod 10) ltac:(Z.div_mod_to_equations; lia))
    as [Hi0 Hv0].
  pose proof (decimal_digit (x / 10 mod 10) ltac:(Z.div_mod_to_equations; lia))
    as [Hi1 Hv1].
  pose proof (decimal_digit (x / 10 / 10 mod 10)
                ltac:(Z.div_mod_to_equations; lia)) as [Hi2 Hv2].
  pose proof (decimal_digit (x / 10 / 10 / 10 mod 10)
                ltac:(Z.div_mod_to_equations; lia)) as [Hi3 Hv3].
  assert (Hz : is_digit "0" = true /\ digit_val "0" = 0) by (by vm_compute).
  destruct Hz as [Hiz Hvz].
  cbn [decimal_rev]. cbv zeta.
  set (c0 := ascii_of_nat (Z.to_nat (48 + x mod 10))) in *.
  set (c1 := ascii_of_nat (Z.to_nat (48 + x / 10 mod 10))) in *.
  set (c2 := ascii_of_nat (Z.to_nat (48 + x / 10 / 10 mod 10))) in *.
  set (c3 := ascii_of_nat (Z.to_nat (48 + x / 10 / 10 / 10 mod 10))) in *.
  clearbody c0 c1 c2 c3.
  destruct (Z.ltb_spec x 10) as [H1 | H1];
    [| destruct (Z.ltb_spec (x / 10) 10) as [H2 | H2];
       [| destruct (Z.ltb_spec (x / 10 / 10) 10) as [H3 | H3] ] ].
  - change (four_digits_of x
              (String "0" (String "0" (String "0" (String c0 "")))) = true).
    apply four_digits_of_intro; try done.
    rewrite Hvz, Hv0. Z.div_mod_to_equations; lia.
  - change (four_digits_of x
              (String "0" (String "0" (String c1 (String c0 "")))) = true).
    apply four_digits_of_intro; try done.
    rewrite Hvz, Hv0, Hv1. Z.div_mod_to_equations; lia.
  - change (four_digits_of x
              (String "0" (String c2 (String c1 (String c0 "")))) = true).
    apply four_digits_of_intro; try done.
    rewrite Hvz, Hv0, Hv1, Hv2. Z.div_mod_to_equations; lia.
  - destruct (x / 10 / 10 / 10 <? 10);
      change (four_digits_of x
                (String c3 (String c2 (String c1 (String c0 "")))) = true);
      apply four_digits_of_intro; try done;
      rewrite Hv0, Hv1, Hv2, Hv3; Z.div_mod_to_equations; lia.
Qed.

Lemma appendInt_four_digits x :
  0 <= x <= 9999 -> four_digits (appendInt x 4) = true.
Proof.
  intros Hx. pose proof (appendInt_four_digits_of x Hx) as H.
  destruct (appendInt x 4) as [| a [| b [| c [| d [| e s]]]]]; try done.
  simpl in *. apply andb_true_iff in H as [H _]. exact H.
Qed.

Lemma two_digits_inv s :
  two_digits s = true ->
  exists a b, s = String a (String b "") /\
              is_digit a = true /\ is_digit b = true.
Proof.
  destruct s as [| a [| b [| c s]]]; simpl; try done.
  intros [Ha Hb]%andb_true_iff. by exists a, b.
Qed.

Lemma four_digits_inv s :
  four_digits s = true ->
  exists a b c d, s = String a (String b (String c (String d ""))) /\
    is_digit a = true /\ is_digit b = true /\
    is_digit c = true /\ is_digit d = true.
Proof.
  destruct s as [| a [| b [| c [| d [| e s]]]]]; simpl; try done.
  intros [[[Ha Hb]%andb_true_iff Hc]%andb_true_iff Hd]%andb_true_iff.
  by exists a, b, c, d.
Qed.

(** The timestamp of a civil time has the pattern
    [YYYY-MM-DD HH:MM:SS]. *)
Lemma Format_is_timestamp (t : WallClock) :
  civil t -> is_timestamp (Format t) = true.
Proof.
  intros (Hy & Hmo & Hd & Hh & Hmi & Hs). unfold Format.
  destruct (four_digits_inv _ (appendInt_four_digits (wYear t) Hy))
    as (y1 & y2 & y3 & y4 & -> & Hy1 & Hy2 & Hy3 & Hy4).
  destruct (two_digits_inv _ (appendInt_two_digits (wMonth t) ltac:(lia)))
    as (m1 & m2 & -> & Hm1 & Hm2).
  destruct (two_digits_inv _ (appendInt_two_digits (wDay t) ltac:(lia)))
    as (d1 & d2 & -> & Hd1 & Hd2).
  destruct (two_digits_inv _ (appendInt_two_digits (wHour t) ltac:(lia)))
    as (h1 & h2 & -> & Hh1 & Hh2).
  destruct (two_digits_inv _ (appendInt_two_digits (wMin t) ltac:(lia)))
    as (n1 & n2 & -> & Hn1 & Hn2).
  destruct (two_digits_inv _ (appendInt_two_digits (wSec t) ltac:(lia)))
    as (c1 & c2 & -> & Hc1 & Hc2).
  cbv [String.append is_timestamp list_ascii_of_string forallb].
  by rewrite Hy1, Hy2, Hy3, Hy4, Hm1, Hm2, Hd1, Hd2, Hh1, Hh2, Hn1, Hn2, Hc1, Hc2.
Qed.

(** *** The two assignments *)

Lemma set_fields_other (f : Field) ts ip (info : DeviceInfo) :
  f <> F_Timestamp -> f <> F_IPAddress ->
  field f (set_IPAddress ip (set_Timestamp ts info)) = field f info.
Proof. intros Ht Hi. destruct f; done. Qed.


(** *** Reading the timestamp back *)

Lemma appendInt_two_digits_of x :
  0 <= x <= 99 -> two_digits_of x (appendInt x 2) = true.
Proof.
  intros Hx.
  pose proof (below_in_seq
                (fun n => two_digits_of (Z.of_nat n) (appendInt (Z.of_nat n) 2))
                100 x) as H.
  cbv beta in H. rewrite Z2Nat.id in H by lia.
  apply H; [by vm_compute | lia].
Qed.

Lemma two_digits_of_inv x s :
  two_digits_of x s = true ->
  exists a b, s = String a (String b "") /\
              is_digit a = true /\ is_digit b = true /\
              digit_val a * 10 + digit_val b = x.
Proof.
  destruct s as [| a [| b [| c s]]]; simpl; try done.
  intros [[Ha Hb]%andb_true_iff Hv%Z.eqb_eq]%andb_true_iff. by exists a, b.
Qed.

Lemma four_digits_of_inv x s :
  four_digits_of x s = true ->
  exists a b c d, s = String a (String b (String c (String d ""))) /\
    is_digit a = true /\ is_digit b = true /\
    is_digit c = true /\ is_digit d = true /\
    ((digit_val a * 10 + digit_val b) * 10 + digit_val c) * 10 + digit_val d
      = x.
Proof.
  destruct s as [| a [| b [| c [| d [| e s]]]]]; simpl; try done.
  intros [[[[Ha Hb]%andb_true_iff Hc]%andb_true_iff Hd]%andb_true_iff
            Hv%Z.eqb_eq]%andb_true_iff.
  by exists a, b, c, d.
Qed.

Lemma is_digit_ascii (c : ascii) : is_digit c = true -> (byte_val c <? 128) = true.
Proof.
  unfold is_digit, byte_val. intros [_ H%Nat.leb_le]%andb_true_iff.
  apply Z.ltb_lt. lia.
Qed.

(** The timestamp of a civil time reads back as that time, and all its
    bytes are ASCII. *)
Lemma Format_reads_back (t : WallClock) :
  civil t -> read_timestamp (Format t) = Some t /\ is_ascii (Format t) = true.
Proof.
  intros (Hy & Hmo & Hd & Hh & Hmi & Hs). destruct t as [ye mo da ho mi se].
  cbn [wYear wMonth wDay wHour wMin wSec] in *. unfold Format.
  cbn [wYear wMonth wDay wHour wMin wSec].
  destruct (four_digits_of_inv _ _ (appendInt_four_digits_of ye Hy))
    as (y1 & y2 & y3 & y4 & -> & Hy1 & Hy2 & Hy3 & Hy4 & <-).
  destruct (two_digits_of_inv _ _ (appendInt_two_digits_of mo ltac:(lia)))
    as (m1 & m2 & -> & Hm1 & Hm2 & <-).
  destruct (two_digits_of_inv _ _ (appendInt_two_digits_of da ltac:(lia)))
    as (d1 & d2 & -> & Hd1 & Hd2 & <-).
  destruct (two_digits_of_inv _ _ (appendInt_two_digits_of ho ltac:(lia)))
    as (h1 & h2 & -> & Hh1 & Hh2 & <-).
  destruct (two_digits_of_inv _ _ (appendInt_two_digits_of mi ltac:(lia)))
    as (n1 & n2 & -> & Hn1 & Hn2 & <-).
  destruct (two_digits_of_inv _ _ (appendInt_two_digits_of se ltac:(lia)))
    as (c1 & c2 & -> & Hc1 & Hc2 & <-).
  split.
  - reflexivity.
  - cbv [String.append is_ascii].
    rewrite (is_digit_ascii _ Hy1), (is_digit_ascii _ Hy2), (is_digit_ascii _ Hy3), (is_digit_ascii _ Hy4), (is_digit_ascii _ Hm1), (is_digit_ascii _ Hm2), (is_digit_ascii _ Hd1),
      (is_digit_ascii _ Hd2), (is_digit_ascii _ Hh1), (is_digit_ascii _ Hh2), (is_digit_ascii _ Hn1), (is_digit_ascii _ Hn2), (is_digit_ascii _ Hc1), (is_digit_ascii _ Hc2).
    reflexivity.
Qed.

(** *** What the encoder writes *)

Lemma written_from_valid (s : string) (k : nat) :
  valid_from s k = true -> written_from s k = s.
Proof.
  revert k. induction s as [| b s IH]; intros k Hv; [done |].
  destruct k as [| k].
  - cbn [valid_from written_from] in *.
    destruct (rune_size (String b s)) as [n |]; [| done].
    by rewrite IH.
  - cbn [valid_from written_from] in *. by rewrite IH.
Qed.

(** A string of well-formed UTF-8 is written as it is. *)
Lemma written_valid (s : string) : ValidString s = true -> written s = s.
Proof. apply written_from_valid. Qed.

(** A string of ASCII bytes is well-formed UTF-8. *)
Lemma is_ascii_valid (s : string) : is_ascii s = true -> ValidString s = true.
Proof.
  unfold ValidString. induction s as [| b s IH]; [done |].
  cbn [is_ascii]. intros [Hb Hs]%andb_true_iff.
  cbn [valid_from rune_size]. rewrite Hb. cbn [Nat.pred]. by apply IH.
Qed.

Lemma field_map_fields (g : Field) (f : string -> string) (info : DeviceInfo) :
  field g (map_fields f info) = f (field g info).
Proof. by destruct g. Qed.

(** *** The acknowledgement *)




(** The end-to-end scenario of the specification. *)
Example collect_scenario :
  let r := {| Method := "POST";
              Header := {[ "X-Forwarded-For" := ["203.0.113.5"] ]};
              RemoteAddr := "192.0.2.1:4711";
              Body := "{}" |} in
  let answer :=
    fst (collectHandler (fun _ => inl submitted) 0
           (mkWallClock 2026 10 31 9 5 0) r rateLimiter) in
  (Data <$> sent answer) =
    Some (Some (set_IPAddress "203.0.113.5"
                  (set_Timestamp "2026-10-31 09:05:00" submitted))) /\
  UserAgent (set_IPAddress "203.0.113.5"
               (set_Timestamp "2026-10-31 09:05:00" submitted)) = "test-agent".
Proof. vm_compute. split; reflexivity. Qed.

End HandlerFacts.

(** * Further properties *)

(** ** The rate limiter: bursts, order, keys, interleavings *)

Section RateLimiterMore.
Import GoTime RateLimiter.

Implicit Types (rl : RateLimiter) (now t T : Time) (ip key : string).
Implicit Types (calls : list Call) (l : list Time).

Lemma pruned_all now key rl :
  Forall (in_window now) (stored rl key) -> pruned now key rl = stored rl key.
Proof. intros H. unfold pruned. by apply filter_all. Qed.

(** Calls for one key whose clock readings all lie in one span of less
    than a minute, on a sequence whose entries lie in that span: as many
    are admitted as there is room up to thirty, the others are denied. *)
Lemma burst_room key t0 (ts : list Time) rl :
  Forall (fun t => t0 <= t < t0 + Minute) (stored rl key) ->
  Forall (fun t => t0 <= t < t0 + Minute) ts ->
  fst (run rl (map (fun t => (t, key)) ts)) =
    repeat true (min (length ts) (30 - length (stored rl key)))
      ++ repeat false (length ts - (30 - length (stored rl key))).
Proof.
  revert rl. induction ts as [| t ts IH]; intros rl Hst Hts; [done |].
  apply Forall_cons_1 in Hts as [Ht Hts].
  assert (Hp : pruned t key rl = stored rl key).
  { apply pruned_all. eapply Forall_impl; [exact Hst |].
    intros s Hs. unfold in_window. simpl in Hs. lia. }
  cbn [map run length].
  destruct (Allow_cases t key rl) as [[Hfull Heq] | [Hfree Heq]];
    rewrite Hp in *; rewrite Heq.
  - specialize (IH rl Hst Hts).
    destruct (run rl (map (fun t => (t, key)) ts)) as [oks rl2].
    cbn [fst] in *. rewrite IH.
    replace (30 - length (stored rl key))%nat with 0%nat by lia.
    rewrite !Nat.min_0_r, !Nat.sub_0_r. reflexivity.
  - set (rl1 := {| requests := <[key := stored rl key ++ [t]]> (requests rl) |}).
    assert (Hst1 : stored rl1 key = stored rl key ++ [t])
      by apply stored_insert_eq.
    specialize (IH rl1). rewrite Hst1 in IH.
    destruct (run rl1 (map (fun t => (t, key)) ts)) as [oks rl2].
    cbn [fst] in *. rewrite IH.
    + rewrite length_app. cbn [length].
      replace (30 - length (stored rl key))%nat
        with (S (30 - (length (stored rl key) + 1)))%nat by lia.
      rewrite <- Nat.succ_min_distr. reflexivity.
    + apply Forall_app. split; [done | by constructor].
    + done.
Qed.

(** X1. From a limiter that holds nothing for a key, calls for that key
    within one span of less than a minute are admitted up to the thirtieth
    and denied from the thirty-first on. *)
Theorem burst_first_30_admitted key t0 (ts : list Time) rl :
  stored rl key = [] ->
  Forall (fun t => t0 <= t < t0 + Minute) ts ->
  fst (run rl (map (fun t => (t, key)) ts)) =
    repeat true (min (length ts) 30) ++ repeat false (length ts - 30).
Proof.
  intros Hnil Hts.
  rewrite (burst_room key t0 ts rl); [by rewrite Hnil | | done].
  rewrite Hnil. constructor.
Qed.

Lemma burst_first_30_admitted_witness :
  fst (run rateLimiter
         (map (fun t => (t, "203.0.113.5")) (map Z.of_nat (seq 1 31)))) =
    repeat true (min (length (map Z.of_nat (seq 1 31))) 30)
      ++ repeat false (length (map Z.of_nat (seq 1 31)) - 30).
Proof.
  apply (burst_first_30_admitted "203.0.113.5" 0 (map Z.of_nat (seq 1 31))
           rateLimiter).
  - apply stored_init.
  - apply (bool_decide_unpack _). vm_compute. reflexivity.
Defined.

(** *** Insertion order is the order of the clock *)

Lemma chronological_app_l calls calls' :
  chronological (calls ++ calls') -> chronological calls.
Proof.
  induction calls as [| [t key] rest IH]; [done |].
  simpl. intros [Hall Hchr]. split; [| by apply IH].
  by apply Forall_app in Hall as [Hall _].
Qed.

Lemma StronglySorted_filter (P : Time -> Prop) `{!forall x, Decision (P x)} l :
  StronglySorted Z.le l -> StronglySorted Z.le (filter P l).
Proof.
  induction 1 as [| x l Hs IH Hx]; [constructor |].
  destruct (decide (P x)).
  - rewrite filter_cons_True by done. constructor; [done |].
    by apply Forall_filter_keep.
  - by rewrite filter_cons_False.
Qed.

Lemma stored_sorted calls key :
  chronological calls ->
  StronglySorted Z.le (stored (snd (run rateLimiter calls)) key).
Proof.
  induction calls as [| [now ip] calls IH] using rev_ind; intros Hchr.
  - simpl. rewrite stored_init. constructor.
  - rewrite run_snoc_snd.
    pose proof (IH (chronological_app_l _ _ Hchr)) as Hsorted.
    destruct (decide (ip = key)) as [-> | Hne]; [| by rewrite Allow_stored_ne].
    set (rl := snd (run rateLimiter calls)) in *.
    destruct (Allow_cases now key rl) as [[_ ->] | [_ ->]]; cbn [snd]; [done |].
    rewrite stored_insert_eq. apply StronglySorted_app.
    split; [| split].
    + intros x1 x2 Hx1 Hx2. apply list_elem_of_singleton in Hx2 as ->.
      unfold pruned in Hx1. apply list_elem_of_filter in Hx1 as [_ Hx1].
      assert (Hle : Forall (fun t => t <= now) (stored rl key)).
      { apply stored_times; [rewrite stored_init; constructor |].
        by apply (chronological_snoc calls now key). }
      rewrite Forall_forall in Hle. by apply Hle.
    + unfold pruned. by apply StronglySorted_filter.
    + repeat constructor.
Qed.

(** X2. In a run with calls in the order of the clock, the stored
    sequence of every key is in chronological order: no entry is later
    than one that follows it. *)
Theorem stored_in_clock_order calls key :
  chronological calls ->
  StronglySorted Z.le (stored (snd (run rateLimiter calls)) key).
Proof. apply stored_sorted. Qed.

Lemma stored_in_clock_order_witness :
  StronglySorted Z.le
    (stored (snd (run rateLimiter
                    [(5, "203.0.113.5"); (5, "198.51.100.7");
                     (7, "203.0.113.5")])) "203.0.113.5").
Proof.
  apply (stored_in_clock_order
           [(5, "203.0.113.5"); (5, "198.51.100.7"); (7, "203.0.113.5")]
           "203.0.113.5").
  simpl. repeat constructor; simpl; lia.
Defined.


(** *** A full key is denied exactly until its oldest entry expires *)

(** X3. After a run with calls in the order of the clock, a key whose
    stored sequence holds thirty entries is admitted at a clock reading
    [now] exactly when a minute or more has passed since the first, the
    oldest, of them: until then every call for it is denied. *)
Theorem full_key_readmitted_iff calls key oldest rest now :
  chronological calls ->
  stored (snd (run rateLimiter calls)) key = oldest :: rest ->
  length rest = 29%nat ->
  fst (Allow now key (snd (run rateLimiter calls))) = true
    <-> Minute <= now - oldest.
Proof.
  intros Hchr Hst Hlen.
  pose proof (stored_sorted calls key Hchr) as Hsorted.
  set (rl := snd (run rateLimiter calls)) in *.
  rewrite Hst in Hsorted. apply StronglySorted_cons in Hsorted as [Hold _].
  split.
  - intros Hok. destruct (Z.le_gt_cases Minute (now - oldest)) as [| Hlt]; [done |].
    exfalso.
    assert (Hp : pruned now key rl = stored rl key).
    { apply pruned_all. rewrite Hst. constructor; [exact Hlt |].
      eapply Forall_impl; [exact Hold |].
      intros t Ht. unfold in_window. simpl in Ht. lia. }
    rewrite (Allow_denied now key rl) in Hok; [done |].
    rewrite Hp, Hst. simpl. lia.
  - intros Hexp. rewrite (Allow_admitted now key rl); [done |].
    unfold pruned. rewrite Hst, filter_cons_False by (unfold in_window; lia).
    pose proof (length_filter (in_window now) rest). lia.
Qed.

Lemma full_key_readmitted_iff_witness :
  fst (Allow 59999999999 "203.0.113.5" (snd (run rateLimiter spaced))) = true
    <-> Minute <= 59999999999 - 0.
Proof.
  apply (full_key_readmitted_iff spaced "203.0.113.5" 0
           (tail (stored (snd (run rateLimiter spaced)) "203.0.113.5"))).
  - vm_compute. repeat split; repeat constructor; discriminate.
  - vm_compute. reflexivity.
  - vm_compute. reflexivity.
Defined.

(** *** Keys are created by their first call and stay *)

(** X4. A call for a key that the map does not hold is admitted whatever
    the clock reads, and it creates the key with the clock reading as its
    only entry. *)
Theorem first_call_creates_key now key rl :
  requests rl !! key = None ->
  fst (Allow now key rl) = true /\
  requests (snd (Allow now key rl)) !! key = Some [now] /\
  dom (requests (snd (Allow now key rl))) = {[ key ]} ∪ dom (requests rl).
Proof.
  intros Hnone.
  assert (Hst : stored rl key = []) by (unfold stored; by rewrite Hnone).
  rewrite (Allow_admitted now key rl) by (unfold pruned; rewrite Hst; simpl; lia).
  unfold pruned. rewrite Hst. cbn [fst snd requests].
  split; [done | split].
  - by rewrite lookup_insert_eq.
  - by rewrite dom_insert_L.
Qed.

Lemma first_call_creates_key_witness :
  requests (snd (Allow 42 "203.0.113.5" rateLimiter)) !! "203.0.113.5"
    = Some [42].
Proof.
  apply (first_call_creates_key 42 "203.0.113.5" rateLimiter).
  reflexivity.
Defined.

Lemma reachable_nonempty rl key l :
  reachable rl -> requests rl !! key = Some l -> l <> [].
Proof.
  induction 1 as [| now ip rl _ IH] in l |- *.
  - unfold rateLimiter; simpl. by rewrite lookup_empty.
  - destruct (Allow_cases now ip rl) as [[_ ->] | [_ ->]]; cbn [snd requests].
    + apply IH.
    + destruct (decide (ip = key)) as [-> | Hne].
      * rewrite lookup_insert_eq. intros [= <-]. by destruct (pruned now key rl).
      * rewrite lookup_insert_ne by done. apply IH.
Qed.

(** X5. No call removes a key from the map, and the sequence that the
    program stores under a key is never empty: a key stays in the map,
    with at least one timestamp, however old. *)
Theorem keys_never_evicted rl now ip :
  reachable rl ->
  dom (requests rl) ⊆ dom (requests (snd (Allow now ip rl))) /\
  (forall key l, requests (snd (Allow now ip rl)) !! key = Some l -> l <> []).
Proof.
  intros Hr. split.
  - destruct (Allow_cases now ip rl) as [[_ ->] | [_ ->]]; cbn [snd requests].
    + done.
    + rewrite dom_insert_L. set_solver.
  - intros key l. apply reachable_nonempty. by constructor.
Qed.

Lemma keys_never_evicted_witness :
  dom (requests (snd (Allow 0 "203.0.113.5" rateLimiter)))
    ⊆ dom (requests (snd (Allow 120000000000 "198.51.100.7"
                            (snd (Allow 0 "203.0.113.5" rateLimiter))))).
Proof.
  apply (keys_never_evicted (snd (Allow 0 "203.0.113.5" rateLimiter))
           120000000000 "198.51.100.7").
  apply reachable_Allow, reachable_init.
Defined.

(** *** Interleaved calls *)

Lemma run_cons_fst rl now ip calls :
  fst (run rl ((now, ip) :: calls)) =
    fst (Allow now ip rl) :: fst (run (snd (Allow now ip rl)) calls).
Proof.
  simpl. destruct (Allow now ip rl) as [ok rl1]; simpl.
  by destruct (run rl1 calls).
Qed.

Lemma results_for_cons key rl now ip calls :
  results_for key rl ((now, ip) :: calls) =
    (if bool_decide (ip = key) then [fst (Allow now ip rl)] else [])
      ++ results_for key (snd (Allow now ip rl)) calls.
Proof.
  simpl. destruct (Allow now ip rl) as [ok rl1]; simpl.
  by destruct (bool_decide (ip = key)).
Qed.

Lemma results_for_local key calls rl1 rl2 :
  stored rl1 key = stored rl2 key ->
  results_for key rl1 calls = fst (run rl2 (calls_for key calls)) /\
  stored (snd (run rl1 calls)) key
    = stored (snd (run rl2 (calls_for key calls))) key.
Proof.
  revert rl1 rl2. induction calls as [| [now ip] calls IH]; intros rl1 rl2 Heq.
  - done.
  - rewrite run_cons_snd, results_for_cons. unfold calls_for in *.
    destruct (decide (ip = key)) as [-> | Hne].
    + rewrite filter_cons_True by done.
      rewrite run_cons_snd, run_cons_fst.
      destruct (Allow_local now key rl1 rl2 Heq) as [Hok Hst].
      destruct (IH _ _ Hst) as [IHr IHs].
      rewrite bool_decide_eq_true_2 by done.
      split; [| exact IHs]. rewrite Hok. cbn [app]. f_equal. exact IHr.
    + rewrite filter_cons_False by done.
      rewrite bool_decide_eq_false_2 by done.
      apply IH. by rewrite Allow_stored_ne.
Qed.

(** X6. In a sequence of calls for any keys, in any order, the results of
    the calls for one key, and the sequence stored for it at the end, are
    those of its own calls alone: calls for other keys, before or between
    them, change neither. *)
Theorem interleaving_irrelevant key calls rl :
  results_for key rl calls = fst (run rl (calls_for key calls)) /\
  stored (snd (run rl calls)) key
    = stored (snd (run rl (calls_for key calls))) key.
Proof. by apply results_for_local. Qed.

(** *** The stored sequence is the recent history *)

(** X7. At any instant [T] not before the last call, the admissions of a
    key that are less than a minute old are exactly the entries of its
    stored sequence that are less than a minute old, in the same order:
    pruning forgets no admission that still counts. *)
Theorem stored_is_recent_history calls key T :
  Forall (fun c => fst c <= T) calls ->
  filter (in_window T) (admissions key rateLimiter calls) =
  filter (in_window T) (stored (snd (run rateLimiter calls)) key).
Proof.
  intros Hall.
  pose proof (window_stored_admissions T key calls rateLimiter Hall) as H.
  by rewrite stored_init in H.
Qed.

Lemma stored_is_recent_history_witness :
  filter (in_window 70000000000)
    (admissions "203.0.113.5" rateLimiter
       (spaced ++ [(61000000000, "203.0.113.5")])) =
  filter (in_window 70000000000)
    (stored (snd (run rateLimiter (spaced ++ [(61000000000, "203.0.113.5")])))
       "203.0.113.5").
Proof.
  apply (stored_is_recent_history (spaced ++ [(61000000000, "203.0.113.5")])
           "203.0.113.5" 70000000000).
  apply (bool_decide_unpack _). vm_compute. reflexivity.
Defined.

End RateLimiterMore.

(** ** The hash: closed form, length, collisions, exactness *)

Section HashMore.
Import JS Reduce HashMath.

Implicit Types (str p s : JSString) (hash acc a b c n : Z).

Lemma accumulate_poly a s :
  accumulate (wrap32 a) s = wrap32 (a * 31 ^ Z.of_nat (length s) + poly s).
Proof.
  revert a. induction s as [| c rest IH]; intros a.
  - simpl. f_equal. lia.
  - change (accumulate (wrap32 a) (c :: rest))
      with (accumulate (step (wrap32 a) c) rest).
    rewrite step_31, IH.
    destruct (wrap32_decompose a) as [k ->].
    cbn [length poly]. rewrite Nat2Z.inj_succ, Z.pow_succ_r by lia.
    apply (wrap32_congr _ _ (k * 31 * 31 ^ Z.of_nat (length rest))). ring.
Qed.

(** X8. The accumulator of [hashString] is the polynomial in [31] of the
    character codes, the first code with the highest power, truncated to
    32 bits: the hash of Java's [String.hashCode]. *)
Theorem hash_is_polynomial str : hash_of str = wrap32 (poly str).
Proof.
  unfold hash_of. rewrite hash_loop_accumulate.
  change 0 with (wrap32 0) at 1. rewrite accumulate_poly. by f_equal.
Qed.

(** *** The length of the digest *)

Lemma length_string_of_list_ascii (l : list ascii) :
  String.length (string_of_list_ascii l) = length l.
Proof. induction l as [| x l IH]; simpl; [done | by rewrite IH]. Qed.

Lemma digits_rev_length fuel n (k : nat) :
  0 <= n < 16 ^ Z.of_nat (S k) ->
  (length (digits_rev fuel 16 n) <= S k)%nat.
Proof.
  revert n k. induction fuel as [| fuel IH]; intros n k Hn; [simpl; lia |].
  cbn [digits_rev]. destruct (Z.ltb_spec n 16) as [Hlt | Hge]; [simpl; lia |].
  destruct k as [| k]; [simpl in Hn; lia |].
  cbn [length]. apply le_n_S, IH.
  rewrite (Nat2Z.inj_succ (S k)), Z.pow_succ_r in Hn by lia.
  Z.div_mod_to_equations; lia.
Qed.

(** X9. The digest has at least one and at most eight characters. *)
Theorem digest_length str :
  (1 <= String.length (hashString str) <= 8)%nat.
Proof.
  rewrite hashString_eq, Number_toString_nonneg by apply Z.abs_nonneg.
  unfold digits. rewrite length_string_of_list_ascii, length_rev.
  pose proof (accumulate_range 0 str
                ltac:(split; [by vm_compute | reflexivity])) as Hacc.
  split.
  - unfold digits_fuel. cbn [digits_rev].
    destruct (Z.abs (accumulate 0 str) <? 16); simpl; lia.
  - apply (digits_rev_length _ _ 7).
    change (16 ^ Z.of_nat 8) with 4294967296.
    change (2 ^ 31) with 2147483648 in Hacc. lia.
Qed.

(** *** Collisions *)

Lemma accumulate_app acc s1 s2 :
  accumulate acc (s1 ++ s2) = accumulate (accumulate acc s1) s2.
Proof. unfold accumulate. apply fold_left_app. Qed.

Lemma step_step_shift acc a b :
  step (step acc (a + 1)) (b - 31) = step (step acc a) b.
Proof.
  rewrite !step_31.
  destruct (wrap32_decompose (acc * 31 + (a + 1))) as [k1 ->].
  destruct (wrap32_decompose (acc * 31 + a)) as [k2 ->].
  apply (wrap32_congr _ _ ((k1 - k2) * 31)). ring.
Qed.

(** X10. The hash is not collision-resistant: raising one character code
    by one and lowering the next by [31], anywhere in a string, leaves the
    digest unchanged. *)
Theorem adjacent_shift_collides p a b s :
  hashString (p ++ (a + 1) :: (b - 31) :: s) = hashString (p ++ a :: b :: s).
Proof.
  rewrite !hashString_eq, !accumulate_app.
  change (accumulate ?x (?u :: ?v :: s))
    with (accumulate (step (step x u) v) s).
  by rewrite step_step_shift.
Qed.

(** X11. Two inputs have the same digest exactly when their accumulators
    have the same absolute value: the digest forgets the sign of the
    accumulator and nothing else. *)
Theorem digest_eq_iff str1 str2 :
  hashString str1 = hashString str2
    <-> Z.abs (hash_of str1) = Z.abs (hash_of str2).
Proof.
  unfold hash_of. rewrite !hash_loop_accumulate, !hashString_eq.
  rewrite !Number_toString_nonneg by apply Z.abs_nonneg.
  split.
  - intros Heq. apply (f_equal hex_value) in Heq.
    rewrite !digits_16_value in Heq by apply Z.abs_nonneg. by injection Heq.
  - by intros ->.
Qed.

(** *** Exactness of the arithmetic *)

(** X12. On a string of UTF-16 code units the loop computes with integers
    that a JavaScript number holds exactly: before each turn the hash is a
    signed 32-bit integer, and the sum formed in the turn is below [2^53]
    in magnitude. *)
Theorem loop_numbers_exact p c :
  code_unit c ->
  - 2 ^ 31 <= hash_of p < 2 ^ 31 /\
  - 2 ^ 53 < shl (hash_of p) 5 - hash_of p + c < 2 ^ 53.
Proof.
  intros Hc.
  assert (Hh : - 2 ^ 31 <= hash_of p < 2 ^ 31).
  { unfold hash_of. rewrite hash_loop_accumulate.
    apply accumulate_range. split; [by vm_compute | reflexivity]. }
  split; [done | by apply loop_exact].
Qed.

Lemma loop_numbers_exact_witness :
  - 2 ^ 31 <= hash_of polygenelubricants < 2 ^ 31 /\
  - 2 ^ 53 < shl (hash_of polygenelubricants) 5
             - hash_of polygenelubricants + 65535 < 2 ^ 53.
Proof.
  apply (loop_numbers_exact polygenelubricants 65535).
  unfold code_unit. lia.
Defined.


(** The code units of ["Aa"] and of ["BB"] have accumulators of the same
    absolute value, and so the same digest. *)
Lemma digest_eq_iff_witness : hashString [65; 97] = hashString [66; 66].
Proof. apply (proj2 (digest_eq_iff [65; 97] [66; 66])). reflexivity. Defined.

End HashMore.

(** ** The client key: peer addresses and empty entries *)

Section ClientKeyMore.
Import GoStrings Net Main.
Local Open Scope string_scope.
Local Open Scope Z_scope.

Implicit Types (s h p host port : string) (b c : ascii) (i : Z) (r : Request).

Lemma append_String b s1 s2 : String b s1 ++ s2 = String b (s1 ++ s2).
Proof. reflexivity. Qed.

Lemma append_empty s : "" ++ s = s.
Proof. reflexivity. Qed.

Lemma len_String b s : len (String b s) = len s + 1.
Proof. unfold len. cbn [String.length]. lia. Qed.

Lemma len_nonneg s : 0 <= len s.
Proof. unfold len. lia. Qed.

Lemma len_append s1 s2 : len (s1 ++ s2) = len s1 + len s2.
Proof.
  induction s1 as [| b s1 IH]; [rewrite append_empty; unfold len; simpl; lia |].
  rewrite append_String, !len_String, IH. lia.
Qed.

Lemma IndexByteString_lower s c : -1 <= IndexByteString s c.
Proof.
  induction s as [| b s IH]; simpl; [lia |].
  destruct (Ascii.eqb b c); [lia |].
  destruct (Z.ltb_spec (IndexByteString s c) 0); lia.
Qed.

Lemma IndexByteString_cons_none b s c :
  IndexByteString (String b s) c = -1 <-> b <> c /\ IndexByteString s c = -1.
Proof.
  simpl. pose proof (IndexByteString_lower s c).
  destruct (Ascii.eqb_spec b c) as [-> | Hne].
  - split; [lia | by intros [? _]].
  - destruct (Z.ltb_spec (IndexByteString s c) 0); split; try intros [_ ?]; try lia.
    split; [done | lia].
Qed.

Lemma IndexByteString_app_none s1 s2 c :
  IndexByteString s1 c = -1 -> IndexByteString s2 c = -1 ->
  IndexByteString (s1 ++ s2) c = -1.
Proof.
  induction s1 as [| b s1 IH]; intros H1 H2; [done |].
  rewrite append_String. apply IndexByteString_cons_none in H1 as [Hne H1].
  apply IndexByteString_cons_none. split; [done | by apply IH].
Qed.

Lemma IndexByteString_app_first s1 s2 c :
  IndexByteString s1 c = -1 ->
  IndexByteString (s1 ++ String c s2) c = len s1.
Proof.
  induction s1 as [| b s1 IH]; intros H1.
  - rewrite append_empty. simpl. by rewrite Ascii.eqb_refl.
  - rewrite append_String, len_String.
    apply IndexByteString_cons_none in H1 as [Hne H1].
    cbn [IndexByteString]. rewrite (IH H1).
    destruct (Ascii.eqb_spec b c); [done |].
    pose proof (len_nonneg s1). destruct (Z.ltb_spec (len s1) 0); lia.
Qed.

Lemma LastIndexByteString_none s c :
  IndexByteString s c = -1 -> LastIndexByteString s c = -1.
Proof.
  induction s as [| b s IH]; intros H; [done |].
  apply IndexByteString_cons_none in H as [Hne H].
  cbn [LastIndexByteString]. rewrite (IH H). cbn.
  by destruct (Ascii.eqb_spec b c).
Qed.

Lemma LastIndexByteString_app_last s1 s2 c :
  IndexByteString s2 c = -1 ->
  LastIndexByteString (s1 ++ String c s2) c = len s1.
Proof.
  intros H2. induction s1 as [| b s1 IH].
  - rewrite append_empty. cbn [LastIndexByteString].
    rewrite (LastIndexByteString_none _ _ H2). cbn. by rewrite Ascii.eqb_refl.
  - rewrite append_String, len_String. cbn [LastIndexByteString]. rewrite IH.
    pose proof (len_nonneg s1). destruct (Z.leb_spec 0 (len s1)); lia.
Qed.

Lemma substring_app_l (s1 s2 : string) :
  substring 0 (String.length s1) (s1 ++ s2) = s1.
Proof.
  induction s1 as [| b s1 IH].
  - rewrite append_empty. by destruct s2.
  - rewrite append_String. cbn [String.length substring]. by rewrite IH.
Qed.

Lemma substring_app_r (s1 s2 : string) :
  substring (String.length s1) (String.length s2) (s1 ++ s2) = s2.
Proof.
  induction s1 as [| b s1 IH].
  - rewrite append_empty. apply substring_all.
  - rewrite append_String. cbn [String.length substring]. exact IH.
Qed.

Lemma slice_app_l s1 s2 : slice (s1 ++ s2) 0 (len s1) = s1.
Proof.
  unfold slice, len. rewrite Z.sub_0_r, Nat2Z.id. apply substring_app_l.
Qed.

Lemma slice_from_app_r s1 s2 : slice_from (s1 ++ s2) (len s1) = s2.
Proof.
  unfold slice_from, slice. rewrite len_append.
  replace (len s1 + len s2 - len s1) with (len s2) by lia.
  unfold len. rewrite !Nat2Z.id. apply substring_app_r.
Qed.

Lemma slice_from_0 s : slice_from s 0 = s.
Proof.
  unfold slice_from, slice, len. rewrite Z.sub_0_r, Nat2Z.id.
  apply substring_all.
Qed.

(** The dispatch of [SplitHostPort] on the first byte, as a test. *)
Lemma SplitHostPort_eq hostport :
  SplitHostPort hostport =
    let i := LastIndexByteString hostport ":" in
    if i <? 0 then None
    else if bool_decide (byte_at hostport 0 = Some "["%char) then
      let end_ := IndexByteString hostport "]" in
      if end_ <? 0 then None
      else if end_ + 1 =? len hostport then None
      else if end_ + 1 =? i then
        finish hostport (slice hostport 1 end_) i 1 (end_ + 1)
      else None
    else
      let host := slice hostport 0 i in
      if 0 <=? IndexByteString host ":" then None
      else finish hostport host i 0 0.
Proof.
  unfold SplitHostPort. cbv zeta.
  destruct (LastIndexByteString hostport ":" <? 0); [done |].
  destruct (byte_at hostport 0) as [b |]; [| done].
  destruct (decide (b = "["%char)) as [-> | Hne].
  - by rewrite bool_decide_eq_true_2.
  - rewrite bool_decide_eq_false_2 by congruence.
    destruct b as [[] [] [] [] [] [] [] []]; done.
Qed.

Lemma finish_ok hostport host i j k :
  IndexByteString (slice_from hostport j) "[" = -1 ->
  IndexByteString (slice_from hostport k) "]" = -1 ->
  finish hostport host i j k = Some (host, slice_from hostport (i + 1)).
Proof. intros Hj Hk. unfold finish. by rewrite Hj, Hk. Qed.

(** A host without colon or bracket, a colon, and a port without colon or
    bracket split into that host and that port. *)
Lemma SplitHostPort_plain host port :
  IndexByteString host ":" = -1 -> IndexByteString host "[" = -1 ->
  IndexByteString host "]" = -1 ->
  IndexByteString port ":" = -1 -> IndexByteString port "[" = -1 ->
  IndexByteString port "]" = -1 ->
  SplitHostPort (host ++ String ":" port) = Some (host, port).
Proof.
  intros Hhc Hho Hhe Hpc Hpo Hpe. rewrite SplitHostPort_eq. cbv zeta.
  rewrite (LastIndexByteString_app_last host port ":" Hpc).
  pose proof (len_nonneg host) as Hlen.
  destruct (Z.ltb_spec (len host) 0); [lia |].
  assert (Hopen : IndexByteString (host ++ String ":" port) "[" = -1).
  { apply IndexByteString_app_none; [done |].
    by apply IndexByteString_cons_none. }
  assert (Hclose : IndexByteString (host ++ String ":" port) "]" = -1).
  { apply IndexByteString_app_none; [done |].
    by apply IndexByteString_cons_none. }
  rewrite bool_decide_eq_false_2.
  - rewrite slice_app_l, Hhc. cbn [Z.leb Z.compare].
    rewrite finish_ok by (by rewrite slice_from_0).
    f_equal. f_equal.
    replace (host ++ String ":" port) with ((host ++ ":") ++ port).
    + replace (len host + 1) with (len (host ++ ":"))
        by (rewrite len_append; reflexivity).
      apply slice_from_app_r.
    + clear. induction host as [| b host IH]; [done |].
      by rewrite !append_String, IH.
  - intros Hfirst.
    destruct (host ++ String ":" port) as [| b s]; [done |].
    unfold byte_at in Hfirst. simpl in Hfirst. injection Hfirst as ->.
    by apply IndexByteString_cons_none in Hopen as [? _].
Qed.


Lemma append_assoc_s s1 s2 s3 : (s1 ++ s2) ++ s3 = s1 ++ (s2 ++ s3).
Proof.
  induction s1 as [| b s1 IH]; [done |]. by rewrite !append_String, IH.
Qed.

(** A host without bracket in brackets, a colon, and a port without colon
    or bracket split into that host and that port: the host may hold
    colons, as an IPv6 address does. *)
Lemma SplitHostPort_bracketed host port :
  IndexByteString host "[" = -1 -> IndexByteString host "]" = -1 ->
  IndexByteString port ":" = -1 -> IndexByteString port "[" = -1 ->
  IndexByteString port "]" = -1 ->
  SplitHostPort (String "[" (host ++ String "]" (String ":" port)))
    = Some (host, port).
Proof.
  intros Hho Hhe Hpc Hpo Hpe. rewrite SplitHostPort_eq. cbv zeta.
  set (tl := host ++ String "]" (String ":" port)).
  pose proof (len_nonneg host) as Hlen. pose proof (len_nonneg port) as Hlenp.
  assert (Hlast : LastIndexByteString (String "[" tl) ":" = len host + 2).
  { replace (String "[" tl) with ((String "[" host ++ "]") ++ String ":" port).
    - rewrite (LastIndexByteString_app_last _ port ":" Hpc).
      rewrite len_append, len_String. change (len "]") with 1. lia.
    - rewrite append_assoc_s. reflexivity. }
  assert (Hend : IndexByteString (String "[" tl) "]" = len host + 1).
  { change (String "[" tl) with (String "[" host ++ String "]" (String ":" port)).
    rewrite IndexByteString_app_first; [by rewrite len_String |].
    by apply IndexByteString_cons_none. }
  assert (Hlentl : len (String "[" tl) = len host + len port + 3).
  { unfold tl. rewrite len_String, len_append, !len_String. lia. }
  rewrite Hlast, Hend, Hlentl.
  destruct (Z.ltb_spec (len host + 2) 0); [lia |].
  rewrite bool_decide_eq_true_2 by done.
  destruct (Z.ltb_spec (len host + 1) 0); [lia |].
  destruct (Z.eqb_spec (len host + 1 + 1) (len host + len port + 3)); [lia |].
  destruct (Z.eqb_spec (len host + 1 + 1) (len host + 2)); [| lia].
  assert (Hhost : slice (String "[" tl) 1 (len host + 1) = host).
  { etransitivity; [apply (slice_String "[" tl 0 (len host)); lia |].
    apply slice_app_l. }
  rewrite Hhost.
  assert (Htail1 : slice_from (String "[" tl) 1 = tl).
  { etransitivity; [apply (slice_from_String "[" tl 0); lia |].
    apply slice_from_0. }
  assert (Htail2 : slice_from (String "[" tl) (len host + 1 + 1) = String ":" port).
  { rewrite slice_from_String by lia. unfold tl.
    replace (host ++ String "]" (String ":" port))
      with ((host ++ "]") ++ String ":" port) by apply append_assoc_s.
    replace (len host + 1) with (len (host ++ "]"))
      by (rewrite len_append; reflexivity).
    apply slice_from_app_r. }
  assert (Htail3 : slice_from (String "[" tl) (len host + 2 + 1) = port).
  { rewrite slice_from_String by lia. unfold tl.
    replace (host ++ String "]" (String ":" port))
      with ((host ++ "]:") ++ port) by apply append_assoc_s.
    replace (len host + 2) with (len (host ++ "]:"))
      by (rewrite len_append; reflexivity).
    apply slice_from_app_r. }
  rewrite finish_ok, Htail3; [done | |].
  - rewrite Htail1. unfold tl. apply IndexByteString_app_none; [done |].
    apply IndexByteString_cons_none. split; [done |].
    by apply IndexByteString_cons_none.
  - rewrite Htail2. by apply IndexByteString_cons_none.
Qed.

Lemma getClientIP_no_headers r :
  Header_Get (Header r) "X-Forwarded-For" = "" ->
  Header_Get (Header r) "X-Real-IP" = "" ->
  getClientIP r =
    match SplitHostPort (RemoteAddr r) with
    | None => RemoteAddr r
    | Some (host, _) => host
    end.
Proof. intros Hf Hr. unfold getClientIP. cbv zeta. by rewrite Hf, Hr. Qed.

(** X13. Without forwarding headers, a peer address [host:port] whose host
    and port hold no colon and no bracket resolves to [host]: the port is
    stripped and nothing else. *)
Theorem peer_port_stripped r host port :
  Header_Get (Header r) "X-Forwarded-For" = "" ->
  Header_Get (Header r) "X-Real-IP" = "" ->
  RemoteAddr r = host ++ ":" ++ port ->
  IndexByteString host ":" = -1 -> IndexByteString host "[" = -1 ->
  IndexByteString host "]" = -1 ->
  IndexByteString port ":" = -1 -> IndexByteString port "[" = -1 ->
  IndexByteString port "]" = -1 ->
  getClientIP r = host.
Proof.
  intros Hf Hr Haddr Hhc Hho Hhe Hpc Hpo Hpe.
  rewrite getClientIP_no_headers, Haddr by done.
  change (host ++ ":" ++ port) with (host ++ String ":" port).
  by rewrite SplitHostPort_plain.
Qed.

Lemma peer_port_stripped_witness :
  getClientIP {| Method := "POST"; Header := ∅;
                 RemoteAddr := "192.0.2.1:4711"; Body := "" |} = "192.0.2.1".
Proof.
  apply (peer_port_stripped
           {| Method := "POST"; Header := ∅;
              RemoteAddr := "192.0.2.1:4711"; Body := "" |}
           "192.0.2.1" "4711"); reflexivity.
Defined.

(** X14. Without forwarding headers, a peer address [[host]:port], as of an
    IPv6 peer, resolves to [host] without the brackets, when the host holds
    no bracket and the port no colon and no bracket; the colons of the host
    are kept. *)
Theorem peer_brackets_stripped r host port :
  Header_Get (Header r) "X-Forwarded-For" = "" ->
  Header_Get (Header r) "X-Real-IP" = "" ->
  RemoteAddr r = "[" ++ host ++ "]:" ++ port ->
  IndexByteString host "[" = -1 -> IndexByteString host "]" = -1 ->
  IndexByteString port ":" = -1 -> IndexByteString port "[" = -1 ->
  IndexByteString port "]" = -1 ->
  getClientIP r = host.
Proof.
  intros Hf Hr Haddr Hho Hhe Hpc Hpo Hpe.
  rewrite getClientIP_no_headers, Haddr by done.
  change ("[" ++ host ++ "]:" ++ port)
    with (String "[" (host ++ String "]" (String ":" port))).
  by rewrite SplitHostPort_bracketed.
Qed.

Lemma peer_brackets_stripped_witness :
  getClientIP {| Method := "POST"; Header := ∅;
                 RemoteAddr := "[2001:db8::1]:4711"; Body := "" |}
    = "2001:db8::1".
Proof.
  apply (peer_brackets_stripped
           {| Method := "POST"; Header := ∅;
              RemoteAddr := "[2001:db8::1]:4711"; Body := "" |}
           "2001:db8::1" "4711"); reflexivity.
Defined.

(** X15. Without forwarding headers, a peer address that holds no colon is
    the client key as it stands. *)
Theorem peer_without_port_kept r :
  Header_Get (Header r) "X-Forwarded-For" = "" ->
  Header_Get (Header r) "X-Real-IP" = "" ->
  IndexByteString (RemoteAddr r) ":" = -1 ->
  getClientIP r = RemoteAddr r.
Proof.
  intros Hf Hr Hnone. rewrite getClientIP_no_headers by done.
  rewrite SplitHostPort_eq. cbv zeta.
  by rewrite (LastIndexByteString_none _ _ Hnone).
Qed.

Lemma peer_without_port_kept_witness :
  getClientIP {| Method := "POST"; Header := ∅;
                 RemoteAddr := "@"; Body := "" |} = "@".
Proof.
  apply (peer_without_port_kept
           {| Method := "POST"; Header := ∅; RemoteAddr := "@"; Body := "" |});
    reflexivity.
Defined.

(** X16. With a forwarding header that is not empty, the client key is the
    empty string exactly when the header starts with a comma: such a
    request is served under the key [""], not rejected, and the other
    headers and the peer address are not consulted. *)
Theorem forwarded_empty_entry r :
  Header_Get (Header r) "X-Forwarded-For" <> "" ->
  getClientIP r = ""
    <-> exists rest, Header_Get (Header r) "X-Forwarded-For" = String "," rest.
Proof.
  intros Hf. unfold getClientIP. cbv zeta.
  rewrite eqb_empty, bool_decide_eq_false_2 by done. cbn [negb].
  set (xff := Header_Get (Header r) "X-Forwarded-For") in *.
  destruct (Split_first xff ",") as (_ & rest & Heq & Hrest).
  split.
  - intros Hkey. rewrite Hkey, append_empty in Heq.
    destruct Hrest as [-> | [rest' ->]]; [done | by exists rest'].
  - intros [rest' ->]. reflexivity.
Qed.

Lemma forwarded_empty_entry_witness :
  getClientIP {| Method := "POST";
                 Header := {[ "X-Forwarded-For" := [",203.0.113.5"] ]};
                 RemoteAddr := "192.0.2.1:4711"; Body := "" |} = ""
    <-> exists rest,
          Header_Get (Header {| Method := "POST";
                                Header := {[ "X-Forwarded-For" := [",203.0.113.5"] ]};
                                RemoteAddr := "192.0.2.1:4711"; Body := "" |})
            "X-Forwarded-For" = String "," rest.
Proof.
  apply (forwarded_empty_entry
           {| Method := "POST";
              Header := {[ "X-Forwarded-For" := [",203.0.113.5"] ]};
              RemoteAddr := "192.0.2.1:4711"; Body := "" |}).
  vm_compute. discriminate.
Defined.

(** *** The precedence *)

(** C8. The client key of a request: when the [X-Forwarded-For] header is
    not empty, the key is its first comma-separated entry, that is, the
    part of the header before its first comma; otherwise, when the
    [X-Real-IP] header is not empty, the key is that header; otherwise the
    key is the peer address with its port stripped: the host that
    [net.SplitHostPort] returns, which for an address [host:port] is
    [host] and for an address [[host]:port] is [host] without the
    brackets; and the peer address itself when it does not split into host
    and port, as when it holds no colon. *)
Theorem getClientIP_precedence r :
  let forwarded := Header_Get (Header r) "X-Forwarded-For" in
  let real := Header_Get (Header r) "X-Real-IP" in
  (forwarded <> "" ->
     IndexByteString (getClientIP r) "," = -1 /\
     exists rest,
       forwarded = getClientIP r ++ rest /\
       (rest = "" \/ exists rest', rest = String "," rest')) /\
  (forwarded = "" -> real <> "" -> getClientIP r = real) /\
  (forwarded = "" -> real = "" ->
     match SplitHostPort (RemoteAddr r) with
     | Some (host, port) =>
         getClientIP r = host /\
         (RemoteAddr r = host ++ ":" ++ port \/
          RemoteAddr r = "[" ++ host ++ "]:" ++ port)
     | None => getClientIP r = RemoteAddr r
     end /\
     (forall host port,
        RemoteAddr r = host ++ ":" ++ port ->
        IndexByteString host ":" = -1 -> IndexByteString host "[" = -1 ->
        IndexByteString host "]" = -1 ->
        IndexByteString port ":" = -1 -> IndexByteString port "[" = -1 ->
        IndexByteString port "]" = -1 ->
        getClientIP r = host) /\
     (forall host port,
        RemoteAddr r = "[" ++ host ++ "]:" ++ port ->
        IndexByteString host "[" = -1 -> IndexByteString host "]" = -1 ->
        IndexByteString port ":" = -1 -> IndexByteString port "[" = -1 ->
        IndexByteString port "]" = -1 ->
        getClientIP r = host) /\
     (IndexByteString (RemoteAddr r) ":" = -1 ->
      getClientIP r = RemoteAddr r)).
Proof.
  cbv zeta. split; [| split].
  - intros Hf. unfold getClientIP. cbv zeta.
    rewrite eqb_empty, bool_decide_eq_false_2 by done. cbn [negb].
    apply Split_first.
  - intros Hf Hr. unfold getClientIP. cbv zeta.
    rewrite !eqb_empty, bool_decide_eq_true_2 by done. cbn [negb].
    by rewrite bool_decide_eq_false_2.
  - intros Hf Hr. rewrite getClientIP_no_headers by done.
    split; [| split; [| split]].
    + destruct (SplitHostPort (RemoteAddr r)) as [[host port] |] eqn:Hsplit;
        [| done].
      split; [done | by apply SplitHostPort_strips].
    + intros host port -> Hhc Hho Hhe Hpc Hpo Hpe.
      change (host ++ ":" ++ port) with (host ++ String ":" port).
      by rewrite SplitHostPort_plain.
    + intros host port -> Hho Hhe Hpc Hpo Hpe.
      change ("[" ++ host ++ "]:" ++ port)
        with (String "[" (host ++ String "]" (String ":" port))).
      by rewrite SplitHostPort_bracketed.
    + intros Hnone. rewrite SplitHostPort_eq. cbv zeta.
      by rewrite (LastIndexByteString_none _ _ Hnone).
Qed.

(** The three clauses at work: a forwarded request, a request with the
    real address set, and a bare peer whose port is stripped. *)
Lemma getClientIP_precedence_witness :
  let forwarded :=
    {| Method := "POST";
       Header := {[ "X-Forwarded-For" := ["203.0.113.5, 10.0.0.1"] ]};
       RemoteAddr := "192.0.2.1:4711"; Body := "{}" |} in
  let real :=
    {| Method := "POST"; Header := {[ "X-Real-IP" := ["203.0.113.5"] ]};
       RemoteAddr := "192.0.2.1:4711"; Body := "{}" |} in
  let peer :=
    {| Method := "POST"; Header := ∅;
       RemoteAddr := "192.0.2.1:4711"; Body := "{}" |} in
  (IndexByteString (getClientIP forwarded) "," = -1 /\
   exists rest,
     Header_Get (Header forwarded) "X-Forwarded-For"
       = getClientIP forwarded ++ rest /\
     (rest = "" \/ exists rest', rest = String "," rest')) /\
  getClientIP real = Header_Get (Header real) "X-Real-IP" /\
  getClientIP peer = "192.0.2.1".
Proof.
  cbv zeta. split; [| split].
  - apply (proj1 (getClientIP_precedence
                    {| Method := "POST";
                       Header := {[ "X-Forwarded-For" := ["203.0.113.5, 10.0.0.1"] ]};
                       RemoteAddr := "192.0.2.1:4711"; Body := "{}" |})).
    vm_compute. discriminate.
  - apply (proj1 (proj2 (getClientIP_precedence
                    {| Method := "POST";
                       Header := {[ "X-Real-IP" := ["203.0.113.5"] ]};
                       RemoteAddr := "192.0.2.1:4711"; Body := "{}" |}))).
    + reflexivity.
    + vm_compute. discriminate.
  - refine (proj1 (proj2 (proj2 (proj2 (getClientIP_precedence
                    {| Method := "POST"; Header := ∅;
                       RemoteAddr := "192.0.2.1:4711"; Body := "{}" |}))
                    eq_refl eq_refl)) "192.0.2.1" "4711" _ _ _ _ _ _ _);
      reflexivity.
Defined.

End ClientKeyMore.

(** ** The submission handler: the other answers *)

Section HandlerMore.
Import GoTime GoStrings Net WallClock RateLimiter Main.
Local Open Scope string_scope.
Local Open Scope Z_scope.

Implicit Types (now : Time) (wall : WallClock) (r : Request) (rl : RateLimiter).
Implicit Types (json_Decode : string -> DeviceInfo + string).

Lemma handle_OPTIONS json_Decode now wall r rl :
  Method r = "OPTIONS" ->
  collectHandler json_Decode now wall r rl =
    ({| code := StatusOK;
        headers :=
          [("Access-Control-Allow-Origin", "*");
           ("Access-Control-Allow-Methods", "POST, GET, OPTIONS");
           ("Access-Control-Allow-Headers", "Content-Type")];
        body := None;
      sent := None |}, rl).
Proof. intros H. unfold collectHandler. by rewrite H. Qed.

Lemma handle_other json_Decode now wall r rl :
  Method r <> "OPTIONS" -> Method r <> "POST" ->
  collectHandler json_Decode now wall r rl =
    (sendJSONResponse StatusMethodNotAllowed
       {| Status := "error"; Message := "Only POST method is allowed";
          Data := None |}, rl).
Proof.
  intros H1 H2. unfold collectHandler.
  destruct (String.eqb_spec (Method r) "OPTIONS"); [done |].
  by destruct (String.eqb_spec (Method r) "POST").
Qed.

Lemma handle_POST json_Decode now wall r rl :
  Method r = "POST" ->
  collectHandler json_Decode now wall r rl =
    let ip := getClientIP r in
    if fst (Allow now ip rl) then
      match json_Decode (Body r) with
      | inr err =>
          (sendJSONResponse StatusBadRequest
             {| Status := "error"; Message := "Invalid JSON format: " ++ err;
                Data := None |}, snd (Allow now ip rl))
      | inl info =>
          (sendJSONResponse StatusOK
             {| Status := "success"; Message := "设备信息收集成功";
                Data := Some (set_IPAddress ip (set_Timestamp (Format wall) info)) |},
           snd (Allow now ip rl))
      end
    else
      (sendJSONResponse StatusTooManyRequests
         {| Status := "error"; Message := "请求过于频繁，请稍后再试";
            Data := None |}, snd (Allow now ip rl)).
Proof.
  intros H. unfold collectHandler. rewrite H.
  cbn [String.eqb Ascii.eqb Bool.eqb negb]. cbv zeta.
  destruct (Allow now (getClientIP r) rl) as [[] rl']; cbn [fst snd negb]; [| done].
  by destruct (json_Decode (Body r)).
Qed.

Lemma handle_cases r :
  Method r = "OPTIONS" \/ (Method r <> "OPTIONS" /\ Method r <> "POST")
  \/ Method r = "POST".
Proof.
  destruct (decide (Method r = "OPTIONS")); [by left |].
  destruct (decide (Method r = "POST")); [by right; right | by right; left].
Qed.

(** X17. A request whose method is not [POST] never reaches the limiter
    or the decoder: the limiter is left as it was, the answer carries no
    record, and its status is [200] for [OPTIONS] and [405] for any other
    method. *)
Theorem not_POST_not_counted json_Decode now wall r rl :
  Method r <> "POST" ->
  snd (collectHandler json_Decode now wall r rl) = rl /\
  (forall resp, body (fst (collectHandler json_Decode now wall r rl)) = Some resp ->
                Data resp = None) /\
  code (fst (collectHandler json_Decode now wall r rl)) =
    (if decide (Method r = "OPTIONS") then StatusOK
     else StatusMethodNotAllowed).
Proof.
  intros Hnp. destruct (decide (Method r = "OPTIONS")) as [Ho | Ho].
  - rewrite handle_OPTIONS by done. cbn. by repeat split.
  - rewrite handle_other by done. cbn. repeat split.
    by intros resp [= <-].
Qed.

Lemma not_POST_not_counted_witness :
  snd (collectHandler (fun _ => inl submitted) 0 (mkWallClock 2026 10 31 9 5 0)
         {| Method := "GET"; Header := ∅; RemoteAddr := "192.0.2.1:4711";
            Body := "" |} rateLimiter) = rateLimiter.
Proof.
  apply (not_POST_not_counted (fun _ => inl submitted) 0 (mkWallClock 2026 10 31 9 5 0)
           {| Method := "GET"; Header := ∅; RemoteAddr := "192.0.2.1:4711";
              Body := "" |} rateLimiter).
  discriminate.
Defined.

(** X18. The answer carries a record exactly when the request is a [POST],
    the limiter admits its client key, and its body decodes; and then, and
    only then, the status is [200] with a JSON body. A denied or malformed
    submission gets no record. *)
Theorem record_iff_accepted json_Decode now wall r rl :
  (exists resp info,
     body (fst (collectHandler json_Decode now wall r rl)) = Some resp /\ Data resp = Some info)
  <-> (Method r = "POST" /\
       fst (Allow now (getClientIP r) rl) = true /\
       exists info, json_Decode (Body r) = inl info).
Proof.
  destruct (handle_cases r) as [Ho | [[Ho Hp] | Hp]].
  - rewrite handle_OPTIONS by done. cbn. split.
    + by intros (resp & info & ? & _).
    + intros [Hpost _]. rewrite Ho in Hpost. discriminate.
  - rewrite handle_other by done. cbn. split.
    + by intros (resp & info & [= <-] & ?).
    + by intros [Hpost _].
  - rewrite handle_POST by done. cbv zeta.
    destruct (fst (Allow now (getClientIP r) rl)).
    + destruct (json_Decode (Body r)) as [info | err]; cbn; split.
      * intros _. split; [done | split; [done | by exists info]].
      * intros _. by eexists _, _.
      * by intros (resp & info & [= <-] & ?).
      * by intros (_ & _ & info & ?).
    + cbn. split.
      * by intros (resp & info & [= <-] & ?).
      * by intros (_ & ? & _).
Qed.

(** X19. An admitted [POST] whose body does not decode is answered [400]
    with the text of the error after ["Invalid JSON format: "], and it has
    used up one admission of its client key all the same: the limiter is
    the one that [Allow] left, with the clock reading recorded. *)
Theorem malformed_body_counted json_Decode now wall r rl err :
  Method r = "POST" ->
  fst (Allow now (getClientIP r) rl) = true ->
  json_Decode (Body r) = inr err ->
  code (fst (collectHandler json_Decode now wall r rl)) = StatusBadRequest /\
  body (fst (collectHandler json_Decode now wall r rl)) =
    Some {| Status := "error"; Message := "Invalid JSON format: " ++ err;
            Data := None |} /\
  stored (snd (collectHandler json_Decode now wall r rl)) (getClientIP r) =
    (pruned now (getClientIP r) rl ++ [now])%list.
Proof.
  intros Hp Hok Hdec. rewrite handle_POST by done. cbv zeta.
  rewrite Hok, Hdec. cbn [fst snd code body sendJSONResponse].
  split; [done | split; [done |]].
  destruct (Allow_cases now (getClientIP r) rl) as [[_ Heq] | [_ Heq]];
    rewrite Heq in *; [done |].
  cbn [snd]. apply stored_insert_eq.
Qed.

(** X20. A [POST] that the limiter denies is answered [429] without a
    record, whatever its body: the body is not decoded, and the limiter is
    left as it was. *)
Theorem denied_POST_answer json_Decode now wall r rl :
  Method r = "POST" ->
  fst (Allow now (getClientIP r) rl) = false ->
  collectHandler json_Decode now wall r rl =
    (sendJSONResponse StatusTooManyRequests
       {| Status := "error"; Message := "请求过于频繁，请稍后再试";
          Data := None |}, rl).
Proof.
  intros Hp Hden. rewrite handle_POST by done. cbv zeta. rewrite Hden.
  f_equal.
  destruct (Allow_cases now (getClientIP r) rl) as [[_ Heq] | [_ Heq]];
    rewrite Heq in *; [done | discriminate].
Qed.

(** X21. Whatever the request, the handler leaves the sequences of all
    keys other than the resolved client key of the request as they were. *)
Theorem handler_touches_one_key json_Decode now wall r rl key :
  key <> getClientIP r ->
  requests (snd (collectHandler json_Decode now wall r rl)) !! key = requests rl !! key.
Proof.
  intros Hne.
  destruct (handle_cases r) as [Ho | [[Ho Hp] | Hp]].
  - by rewrite handle_OPTIONS.
  - by rewrite handle_other.
  - rewrite handle_POST by done. cbv zeta.
    assert (Hreq : requests (snd (Allow now (getClientIP r) rl)) !! key
                   = requests rl !! key) by (by apply Allow_requests_ne).
    destruct (fst (Allow now (getClientIP r) rl)); [| done].
    by destruct (json_Decode (Body r)).
Qed.

Lemma handler_touches_one_key_witness :
  requests (snd (collectHandler (fun _ => inl submitted) 0 (mkWallClock 2026 10 31 9 5 0)
                   {| Method := "POST"; Header := ∅;
                      RemoteAddr := "192.0.2.1:4711"; Body := "" |}
                   rateLimiter)) !! "203.0.113.5"
    = requests rateLimiter !! "203.0.113.5".
Proof.
  apply (handler_touches_one_key (fun _ => inl submitted) 0 (mkWallClock 2026 10 31 9 5 0)
           {| Method := "POST"; Header := ∅;
              RemoteAddr := "192.0.2.1:4711"; Body := "" |}
           rateLimiter "203.0.113.5").
  vm_compute. discriminate.
Defined.

(** X22. What the handler writes depends on the limiter through the stored
    sequence of the resolved client key only: two limiters that agree on
    that sequence give the same answer. *)
Theorem answer_depends_on_own_key json_Decode now wall r rl1 rl2 :
  stored rl1 (getClientIP r) = stored rl2 (getClientIP r) ->
  fst (collectHandler json_Decode now wall r rl1) = fst (collectHandler json_Decode now wall r rl2).
Proof.
  intros Heq.
  destruct (handle_cases r) as [Ho | [[Ho Hp] | Hp]].
  - by rewrite !handle_OPTIONS.
  - by rewrite !handle_other.
  - rewrite !handle_POST by done. cbv zeta.
    destruct (Allow_local now (getClientIP r) rl1 rl2 Heq) as [-> _].
    destruct (fst (Allow now (getClientIP r) rl2)); [| done].
    by destruct (json_Decode (Body r)).
Qed.

(** X23. Every answer of the handler allows any origin, and its status is
    one of [200], [400], [405] and [429]; every answer but the one to
    [OPTIONS] is JSON. *)
Theorem answers_allow_any_origin json_Decode now wall r rl :
  let answer := fst (collectHandler json_Decode now wall r rl) in
  ("Access-Control-Allow-Origin", "*") ∈ headers answer /\
  code answer ∈ [StatusOK; StatusBadRequest; StatusMethodNotAllowed;
                 StatusTooManyRequests] /\
  (Method r <> "OPTIONS" ->
   ("Content-Type", "application/json") ∈ headers answer /\
   body answer <> None).
Proof.
  cbv zeta.
  destruct (handle_cases r) as [Ho | [[Ho Hp] | Hp]].
  - rewrite handle_OPTIONS by done. cbn. repeat split; [set_solver.. | done].
  - rewrite handle_other by done. cbn. repeat split; set_solver.
  - rewrite handle_POST by done. cbv zeta.
    destruct (fst (Allow now (getClientIP r) rl));
      [destruct (json_Decode (Body r)) |]; cbn; repeat split; set_solver.
Qed.


Lemma malformed_body_counted_witness :
  stored (snd (collectHandler (fun _ => inr "unexpected EOF") 7
                 (mkWallClock 2026 10 31 9 5 0)
                 {| Method := "POST"; Header := ∅;
                    RemoteAddr := "192.0.2.1:4711"; Body := "{" |}
                 rateLimiter)) "192.0.2.1" = [7].
Proof.
  destruct (malformed_body_counted (fun _ => inr "unexpected EOF") 7
              (mkWallClock 2026 10 31 9 5 0)
              {| Method := "POST"; Header := ∅;
                 RemoteAddr := "192.0.2.1:4711"; Body := "{" |}
              rateLimiter "unexpected EOF") as (_ & _ & H).
  - reflexivity.
  - vm_compute. reflexivity.
  - reflexivity.
  - etransitivity; [exact H |]. vm_compute. reflexivity.
Defined.

Lemma denied_POST_answer_witness :
  code (fst (collectHandler (fun _ => inl submitted) 1000
               (mkWallClock 2026 10 31 9 5 0)
               {| Method := "POST"; Header := ∅;
                  RemoteAddr := "203.0.113.5:4711"; Body := "{}" |}
               (snd (run rateLimiter (burst 0 "203.0.113.5")))))
    = StatusTooManyRequests.
Proof.
  rewrite (denied_POST_answer (fun _ => inl submitted) 1000
             (mkWallClock 2026 10 31 9 5 0)
             {| Method := "POST"; Header := ∅;
                RemoteAddr := "203.0.113.5:4711"; Body := "{}" |}
             (snd (run rateLimiter (burst 0 "203.0.113.5")))).
  - reflexivity.
  - reflexivity.
  - vm_compute. reflexivity.
Defined.

Lemma answer_depends_on_own_key_witness :
  fst (collectHandler (fun _ => inl submitted) 5
         (mkWallClock 2026 10 31 9 5 0)
         {| Method := "POST"; Header := ∅;
            RemoteAddr := "203.0.113.5:4711"; Body := "{}" |}
         rateLimiter)
  = fst (collectHandler (fun _ => inl submitted) 5
           (mkWallClock 2026 10 31 9 5 0)
           {| Method := "POST"; Header := ∅;
              RemoteAddr := "203.0.113.5:4711"; Body := "{}" |}
           (snd (run rateLimiter (burst 0 "198.51.100.7")))).
Proof.
  apply (answer_depends_on_own_key (fun _ => inl submitted) 5
           (mkWallClock 2026 10 31 9 5 0)
           {| Method := "POST"; Header := ∅;
              RemoteAddr := "203.0.113.5:4711"; Body := "{}" |}
           rateLimiter (snd (run rateLimiter (burst 0 "198.51.100.7")))).
  vm_compute. reflexivity.
Defined.

Lemma answers_allow_any_origin_witness :
  ("Content-Type", "application/json")
    ∈ headers (fst (collectHandler (fun _ => inl submitted) 5
                      (mkWallClock 2026 10 31 9 5 0)
                      {| Method := "DELETE"; Header := ∅;
                         RemoteAddr := "203.0.113.5:4711"; Body := "" |}
                      rateLimiter)).
Proof.
  apply (proj2 (proj2 (answers_allow_any_origin (fun _ => inl submitted) 5
                         (mkWallClock 2026 10 31 9 5 0)
                         {| Method := "DELETE"; Header := ∅;
                            RemoteAddr := "203.0.113.5:4711"; Body := "" |}
                         rateLimiter))).
  discriminate.
Defined.

(** *** A burst of submissions *)

Lemma serve_cons json_Decode rl now wall r arrivals :
  serve json_Decode rl ((now, wall, r) :: arrivals) =
    (fst (collectHandler json_Decode now wall r rl)
       :: fst (serve json_Decode
                 (snd (collectHandler json_Decode now wall r rl)) arrivals),
     snd (serve json_Decode
            (snd (collectHandler json_Decode now wall r rl)) arrivals)).
Proof.
  cbn [serve]. destruct (collectHandler json_Decode now wall r rl) as [w rl1].
  cbn [fst snd]. by destruct (serve json_Decode rl1 arrivals).
Qed.

Lemma POST_code_429 json_Decode now wall r rl :
  Method r = "POST" ->
  bool_decide (code (fst (collectHandler json_Decode now wall r rl))
               = StatusTooManyRequests)
    = negb (fst (Allow now (getClientIP r) rl)) /\
  snd (collectHandler json_Decode now wall r rl)
    = snd (Allow now (getClientIP r) rl).
Proof.
  intros Hp. rewrite handle_POST by done. cbv zeta.
  destruct (fst (Allow now (getClientIP r) rl)); [| done].
  by destruct (json_Decode (Body r)).
Qed.

Lemma serve_run json_Decode key arrivals rl :
  Forall (fun a => Method (snd a) = "POST" /\ getClientIP (snd a) = key)
         arrivals ->
  map (fun w => bool_decide (code w = StatusTooManyRequests))
      (fst (serve json_Decode rl arrivals))
    = map negb (fst (run rl (map (fun t => (t, key))
                               (map (fun a => fst (fst a)) arrivals)))).
Proof.
  revert rl. induction arrivals as [| [[now wall] r] arrivals IH];
    intros rl Hall; [done |].
  apply Forall_cons_1 in Hall as [[Hp Hk] Hall]. cbn [fst snd] in Hp, Hk.
  rewrite serve_cons. cbn [fst snd map]. rewrite run_cons_fst. cbn [map].
  destruct (POST_code_429 json_Decode now wall r rl Hp) as [-> ->].
  rewrite Hk. f_equal. by apply IH.
Qed.

(** X24. Of the [POST] submissions of one client key that arrive within
    one span of less than a minute at a server that holds nothing for the
    key, the first thirty are not answered [429], whatever their bodies,
    and all from the thirty-first on are. *)
Theorem serve_burst json_Decode key t0
    (arrivals : list (Time * WallClock * Request)) rl :
  stored rl key = [] ->
  Forall (fun a => Method (snd a) = "POST" /\ getClientIP (snd a) = key)
         arrivals ->
  Forall (fun a => t0 <= fst (fst a) < t0 + Minute) arrivals ->
  map (fun w => bool_decide (code w = StatusTooManyRequests))
      (fst (serve json_Decode rl arrivals))
    = (repeat false (min (length arrivals) 30)
         ++ repeat true (length arrivals - 30))%list.
Proof.
  intros Hnil Hpost Hspan. rewrite (serve_run _ key) by done.
  rewrite (burst_room key t0).
  - rewrite Hnil, length_map. cbn [length]. rewrite Nat.sub_0_r.
    by rewrite map_app, !map_repeat.
  - rewrite Hnil. constructor.
  - apply Forall_forall. intros t Ht.
    apply list_elem_of_fmap in Ht as (a & -> & Ha).
    exact (proj1 (Forall_forall _ _) Hspan a Ha).
Qed.

Lemma serve_burst_witness :
  map (fun w => bool_decide (code w = StatusTooManyRequests))
      (fst (serve (fun _ => inl submitted) rateLimiter
              (repeat (0, mkWallClock 2026 10 31 9 5 0,
                       {| Method := "POST"; Header := ∅;
                          RemoteAddr := "203.0.113.5:4711"; Body := "{}" |})
                      31)))
    = (repeat false 30 ++ [true])%list.
Proof.
  apply (serve_burst (fun _ => inl submitted) "203.0.113.5" 0
           (repeat (0, mkWallClock 2026 10 31 9 5 0,
                    {| Method := "POST"; Header := ∅;
                       RemoteAddr := "203.0.113.5:4711"; Body := "{}" |}) 31)
           rateLimiter).
  - apply stored_init.
  - apply Forall_forall. intros a Ha. apply list_elem_of_In, repeat_spec in Ha.
    subst a. by vm_compute.
  - apply Forall_forall. intros a Ha. apply list_elem_of_In, repeat_spec in Ha.
    subst a. by vm_compute.
Defined.


Lemma record_iff_accepted_witness :
  exists resp info,
    body (fst (collectHandler (fun _ => inl submitted) 5
                 (mkWallClock 2026 10 31 9 5 0)
                 {| Method := "POST"; Header := ∅;
                    RemoteAddr := "203.0.113.5:4711"; Body := "{}" |}
                 rateLimiter)) = Some resp /\ Data resp = Some info.
Proof.
  apply (proj2 (record_iff_accepted (fun _ => inl submitted) 5
                  (mkWallClock 2026 10 31 9 5 0)
                  {| Method := "POST"; Header := ∅;
                     RemoteAddr := "203.0.113.5:4711"; Body := "{}" |}
                  rateLimiter)).
  split; [reflexivity | split; [by vm_compute | by exists submitted]].
Defined.

End HandlerMore.
